(** * wlog formatters: a shallow embedding of [formatters.go]

    The development models the two formatters of the wlog package, the
    text formatter and the JSON formatter, together with the helpers
    [getTimestamp], [writeString] and [itoa], and proves properties of
    the bytes they write.

    Conventions.
    - Go's [int] is the 64-bit two's complement integer; it is a [Z] and
      every arithmetic operation is wrapped explicitly ([wrap]).
    - A Go [string] is a Rocq [string]; a byte slice is a [list ascii].
    - [io.Writer] is a type class; a call returns the new stream state,
      the number of bytes accepted and an optional error.
    - A function that can panic returns a [result]. *)

From Stdlib Require Import ZArith Ascii String List Lia Bool.
From stdpp Require Import base list strings gmap.

Local Open Scope Z_scope.

(** ** Machine integers *)

Module Int.

Definition min_int : Z := - 2 ^ 63.
Definition max_int : Z := 2 ^ 63 - 1.

(** Two's complement wrap-around of a mathematical integer. *)
Definition wrap (x : Z) : Z := (x + 2 ^ 63) mod 2 ^ 64 - 2 ^ 63.

Definition in_range (x : Z) : Prop := min_int <= x <= max_int.

Definition add (x y : Z) : Z := wrap (x + y).
Definition sub (x y : Z) : Z := wrap (x - y).
Definition mul (x y : Z) : Z := wrap (x * y).
(** Go's [/] truncates towards zero. *)
Definition quot (x y : Z) : Z := wrap (Z.quot x y).

(** The conversion [byte(x)] keeps the low eight bits. *)
Definition to_byte (x : Z) : ascii := ascii_of_N (Z.to_N (Z.land x 255)).

End Int.

(** ** Bytes and strings *)

Definition bytes := list ascii.

(** The conversion [[]byte(s)]. *)
Definition bytes_of (s : string) : bytes := list_ascii_of_string s.

Definition newline : ascii := ascii_of_N 10.
Definition char0 : ascii := ascii_of_N 48.

Definition is_digit (c : ascii) : bool :=
  let n := N_of_ascii c in ((48 <=? n) && (n <=? 57))%N.

(** Numeric value of a digit character. *)
Definition digit_val (c : ascii) : Z := Z.of_N (N_of_ascii c) - 48.

(** Decimal value of a sequence of digit characters, most significant first. *)
Definition decimal_value (ds : bytes) : Z :=
  fold_left (fun acc c => 10 * acc + digit_val c) ds 0.

(** ** Results of computations that may panic *)

Inductive result (A : Type) : Type :=
| Ok (a : A)
| Panic (why : string)
| OutOfFuel.
Arguments Ok {A} a.
Arguments Panic {A} why.
Arguments OutOfFuel {A}.

(** ** The [fmt] package: the verb [%d] *)

Module Fmt.

(** Decimal digits of an unsigned number, produced right to left as
    [fmtInteger] does. The fuel is the binary length of [u], which
    bounds its decimal length. *)
Fixpoint digits_loop (fuel : nat) (u : Z) (acc : bytes) : bytes :=
  match fuel with
  | O => Int.to_byte (48 + u) :: acc
  | S fuel' =>
      if 10 <=? u
      then digits_loop fuel' (u / 10) (Int.to_byte (48 + u - (u / 10) * 10) :: acc)
      else Int.to_byte (48 + u) :: acc
  end.

Definition digits (u : Z) : bytes := digits_loop (Z.to_nat (Z.log2 u)) u [].

(** [fmtInteger] for base 10 without the flags [+], [-], space and
    without a precision: [wid] is the optional width, [zero] the flag
    [0]. With the zero flag the width is turned into a minimum number
    of digits, one less for a negative number to leave room for the
    sign; otherwise the text is padded with spaces on the left. *)
Definition fmtInteger (zero : bool) (wid : option Z) (v : Z) : bytes :=
  let negative := v <? 0 in
  let u := Z.abs v in
  let prec :=
    match wid with
    | Some w => if zero then (if negative then w - 1 else w) else 0
    | None => 0
    end in
  let ds := digits u in
  let ds := replicate (Z.to_nat (prec - Z.of_nat (length ds))) char0 ++ ds in
  let ds := if negative then "-"%char :: ds else ds in
  match wid with
  | Some w => replicate (Z.to_nat (w - Z.of_nat (length ds))) " "%char ++ ds
  | None => ds
  end.

(** Scanner state of [Sprintf]: copying text, or inside a directive
    after [%] with the zero flag and the width read so far. *)
Inductive pstate : Type :=
| Text
| Directive (zero : bool) (wid : option Z).

(** [Sprintf] restricted to integer operands and to directives of the
    form [%d], [%Nd] and [%0Nd]. A directive with no operand left
    prints [%!d(MISSING)]; other verbs are not modelled and print
    nothing. *)
Fixpoint sprintf (st : pstate) (format : bytes) (args : list Z) : bytes :=
  match format with
  | [] => []
  | c :: format' =>
      match st with
      | Text =>
          if Ascii.eqb c "%" then sprintf (Directive false None) format' args
          else c :: sprintf Text format' args
      | Directive zero wid =>
          if Ascii.eqb c "0" && negb zero && negb (bool_decide (is_Some wid))
          then sprintf (Directive true None) format' args
          else if is_digit c
          then sprintf (Directive zero (Some (10 * default 0 wid + digit_val c))) format' args
          else if Ascii.eqb c "d"
          then match args with
               | a :: args' => fmtInteger zero wid a ++ sprintf Text format' args'
               | [] => bytes_of "%!d(MISSING)" ++ sprintf Text format' []
               end
          else sprintf Text format' args
      end
  end.

Definition Sprintf (format : string) (args : list Z) : string :=
  string_of_list_ascii (sprintf Text (bytes_of format) args).

End Fmt.

(** ** Streams *)

(** Go's [error] values are represented by their message. *)
Definition error := string.

(** [io.Writer]: one method, [Write(p []byte) (n int, err error)]. The
    stream state is threaded explicitly. *)
Class Writer (W : Type) := Write : W -> bytes -> W * (Z * option error).

(** An in-memory stream that accepts every write, as [bytes.Buffer]. *)
Record Buffer := { contents : bytes }.

#[export] Instance Buffer_Writer : Writer Buffer :=
  fun b p => ({| contents := contents b ++ p |}, (Z.of_nat (length p), None)).

(** A stream with a fixed amount of room left: a write that does not fit
    stores what fits and fails. *)
Record Limited := { room : nat; stored : bytes }.

#[export] Instance Limited_Writer : Writer Limited :=
  fun l p =>
    if (length p <=? room l)%nat
    then ({| room := room l - length p; stored := stored l ++ p |},
          (Z.of_nat (length p), None))
    else ({| room := 0; stored := stored l ++ take (room l) p |},
          (Z.of_nat (room l), Some "short write"%string)).

(** The part of the world a formatter acts on: the stream it is given
    and the process's standard error. *)
Record World (W : Type) := { stream : W; stderr : list string }.
Arguments stream {W} _.
Arguments stderr {W} _.

(** Computations over the world that may panic. *)
Definition M (W A : Type) : Type := World W -> result (A * World W).

Definition ret {W A} (a : A) : M W A := fun σ => Ok (a, σ).

Definition bind {W A B} (m : M W A) (k : A -> M W B) : M W B :=
  fun σ =>
    match m σ with
    | Ok (a, σ') => k a σ'
    | Panic why => Panic why
    | OutOfFuel => OutOfFuel
    end.

Notation "m >> k" := (bind m (fun _ => k))
  (at level 100, k at level 200, right associativity).

(** ** The helpers [writeString] and [itoa] *)

Section Helpers.
Context {W : Type} `{Writer W}.

Definition writeString (str : string) : M W unit := fun σ =>
  let '(w, (_, err)) := Write (stream σ) (bytes_of str) in
  match err with
  | Some e =>
      Ok (tt, {| stream := w;
                 stderr := stderr σ ++
                   [("could not write entry log, err: " +:+ e)%string] |})
  | None => Ok (tt, {| stream := w; stderr := stderr σ |})
  end.

(** The assignment [b[bp] = c] on the 20-byte array: out of range it
    panics. *)
Definition store (b : bytes) (bp : Z) (c : ascii) : option bytes :=
  if (0 <=? bp) && (bp <? Z.of_nat (length b))
  then Some (<[Z.to_nat bp := c]> b)
  else None.

(** The loop of [itoa]: the state is the array, the index [bp] and the
    variables [i] and [wid]. Every iteration stores one byte, so the
    loop stops or panics within 21 iterations. *)
Fixpoint itoa_loop (fuel : nat) (b : bytes) (bp i wid : Z)
  : result (bytes * Z * Z) :=
  match fuel with
  | O => OutOfFuel
  | S fuel' =>
      if (10 <=? i) || (1 <? wid) then
        let wid := Int.sub wid 1 in
        let q := Int.quot i 10 in
        match store b bp (Int.to_byte (Int.sub (Int.add 48 i) (Int.mul q 10))) with
        | Some b => itoa_loop fuel' b (Int.sub bp 1) q wid
        | None => Panic "index out of range"
        end
      else Ok (b, bp, i)
  end.

(** After the loop: [b[bp] = byte('0' + i)] and the slice [b[bp:]].
    The result is the slice and the final value of [i], which the
    diagnostic prints. *)
Definition itoa_finish (r : result (bytes * Z * Z)) : result (bytes * Z) :=
  match r with
  | Ok (b, bp, i) =>
      match store b bp (Int.to_byte (Int.add 48 i)) with
      | Some b => Ok (drop (Z.to_nat bp) b, i)
      | None => Panic "index out of range"
      end
  | Panic why => Panic why
  | OutOfFuel => OutOfFuel
  end.

(** [var b [20]byte; bp := len(b) - 1], the loop and the final store. *)
Definition itoa_bytes (i wid : Z) : result (bytes * Z) :=
  itoa_finish (itoa_loop 21 (replicate 20 (ascii_of_N 0)) 19 i wid).

Definition itoa (i wid : Z) : M W unit := fun σ =>
  match itoa_bytes i wid with
  | Ok (p, i) =>
      let '(w, (_, err)) := Write (stream σ) p in
      match err with
      | Some _ =>
          Ok (tt, {| stream := w;
                     stderr := stderr σ ++
                       [Fmt.Sprintf "failed adding zero padding to %d" [i]] |})
      | None => Ok (tt, {| stream := w; stderr := stderr σ |})
      end
  | Panic why => Panic why
  | OutOfFuel => OutOfFuel
  end.

End Helpers.

(** ** Logger state and time *)

(** Modelled from the spec: the type of [l.logLevel] and its constants
    [Dbg], [Nfo], [Wrn], [Err], [Ftl] are declared outside
    [formatters.go]. The spec gives a closed enumeration of five levels;
    a Go enumeration is an integer type, so values outside the five
    exist and are kept as [Unknown]. *)
Inductive Level : Type :=
| Dbg | Nfo | Wrn | Err | Ftl
| Unknown (n : Z).

Definition known (lvl : Level) : bool :=
  match lvl with Unknown _ => false | _ => true end.

(** Dynamic values an [interface{}] field can hold, as far as the
    formatter is concerned. *)
Inductive Value : Type :=
| VString (s : string)
| VInt (n : Z)
| VBool (b : bool)
| VFunc (id : nat).

(** Modelled from the spec: the struct [Logger] is declared outside
    [formatters.go]; the formatters use its field mapping (string keys,
    arbitrary values) and its level. *)
Record Logger := { fields : gmap string Value; logLevel : Level }.

(** What the formatters observe of a [time.Time]: the results of
    [Date()], [Clock()] and [Nanosecond()]. *)
Record Time := {
  year : Z; month : Z; day : Z;
  hour : Z; min : Z; sec : Z;
  nsec : Z
}.

(** The ranges the [time] package guarantees. *)
Definition valid_time (t : Time) : Prop :=
  Int.in_range (year t) /\
  1 <= month t <= 12 /\ 1 <= day t <= 31 /\
  0 <= hour t <= 23 /\ 0 <= min t <= 59 /\ 0 <= sec t <= 59 /\
  0 <= nsec t <= 999999999.

(** ** [getTimestamp] *)

(** The month is a [time.Month]; under the verb [%d] it is printed as its
    number, like the other operands. *)
Definition getTimestamp (now : Time) : string :=
  let nano := Int.quot (nsec now) 1000 in
  let format := "%d-%02d-%02d %02d:%02d:%02d:%06d"%string in
  Fmt.Sprintf format [year now; month now; day now; hour now; min now; sec now; nano].

(** ** The text formatter *)

Module TextFormatter.
Section Format.
Context {W : Type} `{Writer W}.

Definition label (lvl : Level) : string :=
  match lvl with
  | Dbg => "DBG "
  | Nfo => "NFO "
  | Wrn => "WRN "
  | Err => "ERR "
  | Ftl => "FTL "
  | Unknown _ => ""
  end.

(** [len(msg) == 0 || msg[len(msg)-1] != '\n'] *)
Definition needs_newline (msg : string) : bool :=
  match last (bytes_of msg) with
  | None => true
  | Some c => negb (Ascii.eqb c newline)
  end.

Definition Format (l : Logger) (msg : string) (entryTime : Time)
  : M W (option error) :=
  itoa (year entryTime) 4 >>
  writeString "-" >>
  itoa (month entryTime) 2 >>
  writeString "-" >>
  itoa (day entryTime) 2 >>
  writeString " " >>
  itoa (hour entryTime) 2 >>
  writeString ":" >>
  itoa (min entryTime) 2 >>
  writeString ":" >>
  itoa (sec entryTime) 2 >>
  writeString ":" >>
  itoa (Int.quot (nsec entryTime) 1000) 6 >>
  writeString " " >>
  writeString (label (logLevel l)) >>
  writeString msg >>
  (if needs_newline msg then writeString (String newline "") else ret tt) >>
  ret None.

End Format.
End TextFormatter.

(** ** The JSON formatter *)

Module JSONFormatter.
Section Format.
Context {W : Type} `{Writer W}.

(** [json.Marshal] for a field mapping: the encoded bytes, or the
    error of a value it cannot represent. The encoding itself belongs
    to [encoding/json] and is left abstract. *)
Variable marshal : gmap string Value -> error + bytes.

(** The name of a level that is none of the five; [String] is declared
    outside [formatters.go] and the spec does not give this case. *)
Variable unknown_name : Z -> string.

(** Modelled from the spec: the method [String] of the level type is
    declared outside [formatters.go]; the canonical names are
    ["debug"], ["info"], ["warn"], ["error"], ["fatal"]. *)
Definition Level_String (lvl : Level) : string :=
  match lvl with
  | Dbg => "debug"
  | Nfo => "info"
  | Wrn => "warn"
  | Err => "error"
  | Ftl => "fatal"
  | Unknown n => unknown_name n
  end.

(** [json.NewEncoder(w).Encode(v)]: marshal, append a newline, write
    the whole record with one call; the error is that of the marshaller
    or that of the stream. *)
Definition Encode (v : gmap string Value) (w : W) : W * option error :=
  match marshal v with
  | inl e => (w, Some e)
  | inr p =>
      let '(w', (_, err)) := Write w (p ++ [newline]) in (w', err)
  end.

(** [fmt.Errorf("failed to marshal fields to JSON, %v", err)] *)
Definition wrap_error (e : error) : error :=
  ("failed to marshal fields to JSON, " +:+ e)%string.

(** The logger is updated in place through the pointer [l]; the model
    returns its new state next to the error. *)
Definition Format (l : Logger) (msg : string) (entryTime : Time)
  : M W (option error * Logger) := fun σ =>
  let fs := <["msg" := VString msg]> (fields l) in
  let fs := <["timestamp" := VString (getTimestamp entryTime)]> fs in
  let fs := <["level" := VString (Level_String (logLevel l))]> fs in
  let l := {| fields := fs; logLevel := logLevel l |} in
  let '(w, err) := Encode fs (stream σ) in
  let σ := {| stream := w; stderr := stderr σ |} in
  match err with
  | Some e => Ok ((Some (wrap_error e), l), σ)
  | None => Ok ((None, l), σ)
  end.

End Format.
End JSONFormatter.

(** ** Specification vocabulary *)

(** Left padding with ['0'] up to a minimal width. *)
Definition pad0 (w : Z) (ds : bytes) : bytes :=
  replicate (Z.to_nat (w - Z.of_nat (length ds))) char0 ++ ds.

(** The loop of [itoa] on lists: the digits stored so far instead of the
    array and its index. [None] when the fuel runs out. *)
Fixpoint itoa_digits (fuel : nat) (i wid : Z) (acc : bytes) : option (bytes * Z) :=
  match fuel with
  | O => None
  | S fuel' =>
      if (10 <=? i) || (1 <? wid) then
        itoa_digits fuel' (Int.quot i 10) (Int.sub wid 1)
          (Int.to_byte (Int.sub (Int.add 48 i) (Int.mul (Int.quot i 10) 10)) :: acc)
      else Some (acc, i)
  end.

(** The bytes [itoa] writes when it does not panic. *)
Definition itoa_text (i wid : Z) : bytes :=
  match itoa_bytes i wid with
  | Ok (p, _) => p
  | _ => []
  end.

(** Layouts: in a pattern the letter [d] stands for one decimal digit,
    every other character for itself. *)
Fixpoint matches (pat s : bytes) : bool :=
  match pat, s with
  | [], [] => true
  | p :: pat', c :: s' =>
      (if Ascii.eqb p "d" then is_digit c else Ascii.eqb p c) && matches pat' s'
  | _, _ => false
  end.

(** [YYYY-MM-DD HH:MM:SS:MMMMMM] *)
Definition timestamp_layout : bytes := bytes_of "dddd-dd-dd dd:dd:dd:dddddd".

(** The same layout without the year. *)
Definition clock_layout : bytes := bytes_of "-dd-dd dd:dd:dd:dddddd".

(** The date and time as the text formatter writes them. *)
Definition text_stamp (t : Time) : bytes :=
  itoa_text (year t) 4 ++ bytes_of "-" ++ itoa_text (month t) 2 ++ bytes_of "-" ++
  itoa_text (day t) 2 ++ bytes_of " " ++
  itoa_text (hour t) 2 ++ bytes_of ":" ++ itoa_text (min t) 2 ++ bytes_of ":" ++
  itoa_text (sec t) 2 ++ bytes_of ":" ++ itoa_text (Int.quot (nsec t) 1000) 6.

(** What follows the level label: the message and the newline added
    when the message has none. *)
Definition text_tail (msg : string) : bytes :=
  bytes_of msg ++ (if TextFormatter.needs_newline msg then [newline] else []).

(** Running a formatter on an empty in-memory stream. *)
Definition fresh : World Buffer := {| stream := {| contents := [] |}; stderr := [] |}.

Definition text_output (l : Logger) (msg : string) (t : Time) : result bytes :=
  match TextFormatter.Format l msg t fresh with
  | Ok (_, σ) => Ok (contents (stream σ))
  | Panic why => Panic why
  | OutOfFuel => OutOfFuel
  end.

(** The timestamp of the examples: 2024-01-05T08:03:09.123456. *)
Definition example_time : Time :=
  {| year := 2024; month := 1; day := 5; hour := 8; min := 3; sec := 9;
     nsec := 123456000 |}.

Definition with_year (y : Z) (t : Time) : Time :=
  {| year := y; month := month t; day := day t; hour := hour t; min := min t;
     sec := sec t; nsec := nsec t |}.

(** A computation that always returns, with a postcondition on its
    result and on the worlds before and after. *)
Definition returns {W A : Type} (m : M W A)
    (Q : A -> World W -> World W -> Prop) : Prop :=
  forall σ, exists a σ', m σ = Ok (a, σ') /\ Q a σ σ'.

(** Standard error only grows. *)
Definition keeps_stderr {W A : Type} (_ : A) (σ σ' : World W) : Prop :=
  stderr σ `prefix_of` stderr σ'.

(** The world after the bytes [p] went into an in-memory stream. *)
Definition appended (p : bytes) (σ : World Buffer) : World Buffer :=
  {| stream := {| contents := contents (stream σ) ++ p |}; stderr := stderr σ |}.

(** Two newlines at the very end. *)
Definition ends_with_two_newlines (out : bytes) : Prop :=
  [newline; newline] `suffix_of` out.

(** Reading a timestamp back: every field is a run of digits of a known
    width, followed by one separator byte. *)
Fixpoint parse_fields (widths : list nat) (s : bytes) : list Z :=
  match widths with
  | [] => []
  | w :: widths' => decimal_value (take w s) :: parse_fields widths' (drop (S w) s)
  end.

(** The widths of year, month, day, hour, minute, second, microseconds. *)
Definition stamp_widths : list nat := [4; 2; 2; 2; 2; 2; 6]%nat.

(** A stream that records every call of [Write] around another stream:
    the bytes it was given and whether the call failed. *)
Record Traced (W : Type) := { inner : W; calls : list (bytes * bool) }.
Arguments inner {W} _.
Arguments calls {W} _.

#[export] Instance Traced_Writer {W : Type} `{Writer W} : Writer (Traced W) :=
  fun tr p =>
    let '(w, (n, err)) := Write (inner tr) p in
    ({| inner := w;
        calls := calls tr ++ [(p, match err with Some _ => true | None => false end)] |},
     (n, err)).

(** The number of failed calls of a record. *)
Definition failures (cs : list (bytes * bool)) : nat := length (List.filter snd cs).

(** A step that made the calls [chunks], in this order, and put one
    line on standard error for each call that failed. *)
Definition traced_step {W : Type} (chunks : list bytes) (σ σ' : World (Traced W)) : Prop :=
  exists new,
    calls (stream σ') = calls (stream σ) ++ new /\
    map fst new = chunks /\
    length (stderr σ') = (length (stderr σ) + failures new)%nat.

(** The pieces the text formatter hands to the stream, one call each. *)
Definition text_chunks (l : Logger) (msg : string) (t : Time) : list bytes :=
  [ itoa_text (year t) 4; bytes_of "-"; itoa_text (month t) 2; bytes_of "-";
    itoa_text (day t) 2; bytes_of " ";
    itoa_text (hour t) 2; bytes_of ":"; itoa_text (min t) 2; bytes_of ":";
    itoa_text (sec t) 2; bytes_of ":"; itoa_text (Int.quot (nsec t) 1000) 6;
    bytes_of " "; bytes_of (TextFormatter.label (logLevel l)); bytes_of msg ]
  ++ (if TextFormatter.needs_newline msg then [[newline]] else []).

(** The field mapping with the three reserved keys set. *)
Definition injected (msg ts lv : string) (fs : gmap string Value) : gmap string Value :=
  <["level" := VString lv]> (<["timestamp" := VString ts]> (<["msg" := VString msg]> fs)).

(** ** Machine arithmetic *)

Module IntFacts.

Lemma wrap_id x : Int.in_range x -> Int.wrap x = x.
Proof.
  unfold Int.in_range, Int.min_int, Int.max_int, Int.wrap. intros Hx.
  rewrite Z.mod_small; lia.
Qed.

Lemma wrap_mod x : Int.wrap x mod 256 = x mod 256.
Proof.
  unfold Int.wrap.
  pose proof (Z.div_mod (x + 2 ^ 63) (2 ^ 64) ltac:(lia)) as E.
  replace ((x + 2 ^ 63) mod 2 ^ 64 - 2 ^ 63)
    with (x + (- ((x + 2 ^ 63) / 2 ^ 64) * 2 ^ 56) * 256) by lia.
  now rewrite Z.mod_add by lia.
Qed.

Lemma to_byte_mod x y : x mod 256 = y mod 256 -> Int.to_byte x = Int.to_byte y.
Proof.
  unfold Int.to_byte. change 255 with (Z.ones 8).
  rewrite !Z.land_ones by lia. change (2 ^ 8) with 256. now intros ->.
Qed.

Lemma to_byte_wrap x : Int.to_byte (Int.wrap x) = Int.to_byte x.
Proof. apply to_byte_mod, wrap_mod. Qed.

(** The byte stored by one iteration of a digit loop. *)
Lemma digit_byte i :
  Int.to_byte (Int.sub (Int.add 48 i) (Int.mul (Int.quot i 10) 10))
  = Int.to_byte (48 + Z.rem i 10).
Proof.
  unfold Int.sub, Int.add, Int.mul, Int.quot.
  apply to_byte_mod. rewrite wrap_mod.
  rewrite Zminus_mod, !wrap_mod.
  rewrite (Zmult_mod (Int.wrap _)), wrap_mod, <- Zmult_mod, <- Zminus_mod.
  f_equal. pose proof (Z.quot_rem' i 10). lia.
Qed.

Lemma quot_nonneg i : 0 <= i -> Int.in_range i -> Int.quot i 10 = i / 10.
Proof.
  intros H0 Hr. unfold Int.quot. rewrite Z.quot_div_nonneg by lia.
  apply wrap_id. unfold Int.in_range, Int.min_int, Int.max_int in *.
  pose proof (Z.div_pos i 10). pose proof (Z.div_le_upper_bound i 10 i). lia.
Qed.

Lemma quot_range i d : 0 < d -> Int.in_range i -> Int.in_range (Z.quot i d).
Proof.
  unfold Int.in_range, Int.min_int, Int.max_int. intros Hd Hr.
  destruct (Z.le_gt_cases 0 i).
  - rewrite Z.quot_div_nonneg by lia.
    pose proof (Z.div_pos i d). pose proof (Z.div_le_upper_bound i d i). nia.
  - pose proof (Z.quot_opp_l i d ltac:(lia)) as E.
    rewrite (Z.quot_div_nonneg (- i)) in E by lia.
    pose proof (Z.div_pos (- i) d). pose proof (Z.div_le_upper_bound (-i) d (-i)). nia.
Qed.

Lemma sub1 x : Int.min_int < x -> x <= Int.max_int -> Int.sub x 1 = x - 1.
Proof.
  intros. apply wrap_id. unfold Int.in_range, Int.min_int, Int.max_int in *. lia.
Qed.

End IntFacts.

(** ** Decimal digits *)

Module DigitFacts.

Lemma small_cases d : 0 <= d <= 9 ->
  d = 0 \/ d = 1 \/ d = 2 \/ d = 3 \/ d = 4 \/ d = 5 \/ d = 6 \/ d = 7 \/ d = 8 \/ d = 9.
Proof. lia. Qed.

Ltac by_digit d H :=
  destruct (small_cases d H) as [-> | [-> | [-> | [-> | [-> | [-> | [-> | [-> | [-> | ->]]]]]]]]];
  reflexivity.

Lemma is_digit_to_byte d : 0 <= d <= 9 -> is_digit (Int.to_byte (48 + d)) = true.
Proof. intros H. by_digit d H. Qed.

Lemma digit_val_to_byte d : 0 <= d <= 9 -> digit_val (Int.to_byte (48 + d)) = d.
Proof. intros H. by_digit d H. Qed.

Lemma to_byte_zero : Int.to_byte 48 = char0.
Proof. reflexivity. Qed.

Lemma loop_acc fuel : forall u acc,
  Fmt.digits_loop fuel u acc = Fmt.digits_loop fuel u [] ++ acc.
Proof.
  induction fuel as [| fuel IH]; intros u acc; simpl; [reflexivity |].
  destruct (10 <=? u); [| reflexivity].
  rewrite IH, (IH _ [_]), <- app_assoc. reflexivity.
Qed.

Lemma log2_div10 u : 10 <= u -> Z.log2 (u / 10) < Z.log2 u.
Proof.
  intros Hu.
  assert (u / 10 <= u / 2) by (apply Z.div_le_compat_l; lia).
  assert (Z.log2 (u / 2) = Z.log2 u - 1).
  { rewrite <- Z.div2_div, Z.div2_spec, Z.log2_shiftr by lia.
    assert (0 < Z.log2 u) by (apply Z.log2_pos; lia). lia. }
  pose proof (Z.log2_le_mono (u / 10) (u / 2)). lia.
Qed.

Lemma loop_fuel f1 : forall f2 u,
  Z.log2 u <= Z.of_nat f1 -> Z.log2 u <= Z.of_nat f2 ->
  Fmt.digits_loop f1 u [] = Fmt.digits_loop f2 u [].
Proof.
  induction f1 as [| f1 IH]; intros f2 u H1 H2.
  - destruct f2 as [| f2]; simpl; [reflexivity |].
    destruct (Z.leb_spec 10 u) as [Hu |]; [| reflexivity].
    assert (Z.log2 8 <= Z.log2 u) by (apply Z.log2_le_mono; lia).
    change (Z.log2 8) with 3 in *. lia.
  - simpl. destruct (Z.leb_spec 10 u) as [Hu |].
    + pose proof (log2_div10 u Hu).
      destruct f2 as [| f2].
      * assert (Z.log2 8 <= Z.log2 u) by (apply Z.log2_le_mono; lia).
        change (Z.log2 8) with 3 in *. lia.
      * simpl. destruct (Z.leb_spec 10 u); [| lia].
        rewrite loop_acc, (loop_acc f2). f_equal. apply IH; lia.
    + destruct f2; simpl; [reflexivity |].
      destruct (Z.leb_spec 10 u); [lia | reflexivity].
Qed.

Lemma digits_small u : u < 10 -> Fmt.digits u = [Int.to_byte (48 + u)].
Proof.
  intros Hu. unfold Fmt.digits. destruct (Z.to_nat (Z.log2 u)); simpl; [reflexivity |].
  destruct (Z.leb_spec 10 u); [lia | reflexivity].
Qed.

Lemma digits_step u : 10 <= u ->
  Fmt.digits u = Fmt.digits (u / 10) ++ [Int.to_byte (48 + u mod 10)].
Proof.
  intros Hu. unfold Fmt.digits at 1.
  pose proof (log2_div10 u Hu). pose proof (Z.log2_nonneg (u / 10)).
  destruct (Z.to_nat (Z.log2 u)) as [| f] eqn:E; [lia |].
  simpl. destruct (Z.leb_spec 10 u); [| lia].
  rewrite loop_acc. f_equal.
  - apply loop_fuel; lia.
  - do 2 f_equal. pose proof (Z.div_mod u 10). lia.
Qed.

(** Induction on a number along its decimal digits. *)
Lemma decimal_ind (P : Z -> Prop) :
  (forall u, 0 <= u < 10 -> P u) ->
  (forall u, 10 <= u -> P (u / 10) -> P u) ->
  forall u, 0 <= u -> P u.
Proof.
  intros Hs Hst u Hu. revert u Hu.
  apply (Zlt_0_ind P). intros u IH Hu.
  destruct (Z.lt_ge_cases u 10) as [Hlt | Hge]; [apply Hs; lia |].
  apply Hst; [lia |]. apply IH.
  pose proof (Z.div_pos u 10). pose proof (Z.div_lt u 10). lia.
Qed.

Lemma digits_all u : 0 <= u -> forallb is_digit (Fmt.digits u) = true.
Proof.
  revert u. apply decimal_ind; intros u Hu.
  - rewrite digits_small by lia. simpl. rewrite is_digit_to_byte; [reflexivity | lia].
  - intros IH. rewrite digits_step, forallb_app, IH by lia. simpl.
    rewrite is_digit_to_byte; [reflexivity |].
    pose proof (Z.mod_pos_bound u 10). lia.
Qed.

Lemma decimal_value_snoc ds c :
  decimal_value (ds ++ [c]) = 10 * decimal_value ds + digit_val c.
Proof. unfold decimal_value. now rewrite fold_left_app. Qed.

Lemma digits_value u : 0 <= u -> decimal_value (Fmt.digits u) = u.
Proof.
  revert u. apply decimal_ind; intros u Hu.
  - rewrite digits_small by lia. unfold decimal_value. simpl.
    rewrite digit_val_to_byte; lia.
  - intros IH. rewrite digits_step, decimal_value_snoc, IH by lia.
    rewrite digit_val_to_byte by (pose proof (Z.mod_pos_bound u 10); lia).
    pose proof (Z.div_mod u 10). lia.
Qed.

Lemma digits_length_pos u : (0 < length (Fmt.digits u))%nat.
Proof.
  destruct (Z.lt_ge_cases u 10).
  - rewrite digits_small by lia. simpl. lia.
  - rewrite digits_step, length_app by lia. simpl. lia.
Qed.

(** A number below [10 ^ k] has at most [k] digits. *)
Lemma digits_length_le u : 0 <= u -> forall k,
  0 < k -> u < 10 ^ k -> Z.of_nat (length (Fmt.digits u)) <= k.
Proof.
  revert u. apply (decimal_ind (fun u => forall k, 0 < k -> u < 10 ^ k ->
    Z.of_nat (length (Fmt.digits u)) <= k)); intros u Hu.
  - intros k Hk _. rewrite digits_small by lia. simpl. lia.
  - intros IH k Hk Hlt. rewrite digits_step, length_app by lia. simpl.
    assert (k <> 1) by (intros ->; simpl in Hlt; lia).
    assert (u / 10 < 10 ^ (k - 1)).
    { apply Z.div_lt_upper_bound; [lia |].
      rewrite <- Z.pow_succ_r by lia. now replace (Z.succ (k - 1)) with k by lia. }
    specialize (IH (k - 1) ltac:(lia) ltac:(lia)). lia.
Qed.

(** A number from [10 ^ k] on has more than [k] digits. *)
Lemma digits_length_gt u : 0 <= u -> forall k,
  0 <= k -> 10 ^ k <= u -> k < Z.of_nat (length (Fmt.digits u)).
Proof.
  revert u. apply (decimal_ind (fun u => forall k, 0 <= k -> 10 ^ k <= u ->
    k < Z.of_nat (length (Fmt.digits u)))); intros u Hu.
  - intros k Hk Hle. rewrite digits_small by lia. simpl.
    destruct (Z.eq_dec k 0) as [-> | Hne]; [lia |].
    assert (10 ^ 1 <= 10 ^ k) by (apply Z.pow_le_mono_r; lia). simpl in *. lia.
  - intros IH k Hk Hle. rewrite digits_step, length_app by lia. simpl.
    destruct (Z.eq_dec k 0) as [-> | Hne]; [lia |].
    assert (10 ^ (k - 1) <= u / 10).
    { apply Z.div_le_lower_bound; [lia |].
      rewrite <- Z.pow_succ_r by lia. now replace (Z.succ (k - 1)) with k by lia. }
    specialize (IH (k - 1) ltac:(lia) ltac:(lia)). lia.
Qed.

(** No leading zero, except for the number zero itself. *)
Lemma digits_head u : 0 < u -> head (Fmt.digits u) <> Some char0.
Proof.
  intros Hu. assert (H0 : 0 <= u) by lia. revert u H0 Hu.
  apply (decimal_ind (fun u => 0 < u -> head (Fmt.digits u) <> Some char0)); intros u Hu.
  - intros Hpos. rewrite digits_small by lia. simpl. intros [= E].
    apply (f_equal digit_val) in E. rewrite digit_val_to_byte in E by lia.
    change (digit_val char0) with 0 in E. lia.
  - intros IH _. rewrite digits_step by lia.
    assert (0 < u / 10) by (apply Z.div_str_pos; lia).
    specialize (IH ltac:(lia)).
    pose proof (digits_length_pos (u / 10)).
    destruct (Fmt.digits (u / 10)); [simpl in *; lia | exact IH].
Qed.

End DigitFacts.

(** ** The array loop of [itoa] against the list loop *)

Module ItoaFacts.
Import IntFacts DigitFacts.

Lemma store_in b bp c :
  0 <= bp < Z.of_nat (length b) ->
  store b bp c = Some (<[Z.to_nat bp := c]> b) /\
  drop (Z.to_nat bp) (<[Z.to_nat bp := c]> b) = c :: drop (Z.to_nat (bp + 1)) b.
Proof.
  intros Hbp. unfold store.
  destruct (Z.leb_spec 0 bp); [| lia]. destruct (Z.ltb_spec bp (Z.of_nat (length b))); [| lia].
  split; [reflexivity |].
  destruct (lookup_lt_is_Some_2 b (Z.to_nat bp) ltac:(lia)) as [x Hx].
  rewrite drop_insert_ge by lia. rewrite Nat.sub_diag.
  rewrite (drop_S b x (Z.to_nat bp) Hx). simpl.
  now replace (Z.to_nat (bp + 1)) with (S (Z.to_nat bp)) by lia.
Qed.

Lemma store_out b bp c : bp < 0 -> store b bp c = None.
Proof. intros Hbp. unfold store. destruct (Z.leb_spec 0 bp); [lia | reflexivity]. Qed.

(** The list loop only ever adds digits. *)
Lemma itoa_digits_grows fuel : forall i wid acc acc' i',
  itoa_digits fuel i wid acc = Some (acc', i') -> (length acc <= length acc')%nat.
Proof.
  induction fuel as [| fuel IH]; intros i wid acc acc' i'; simpl; [discriminate |].
  destruct ((10 <=? i) || (1 <? wid)).
  - intros E. apply IH in E. simpl in E. lia.
  - intros [= -> _]. lia.
Qed.

(** The array code computes what the list loop computes as long as the
    digits fit into the twenty bytes, and panics otherwise. *)
Lemma itoa_loop_refines fuel : forall b bp i wid,
  length b = 20%nat -> -1 <= bp < 20 -> bp + 1 < Z.of_nat fuel ->
  itoa_finish (itoa_loop fuel b bp i wid) =
  match itoa_digits fuel i wid (drop (Z.to_nat (bp + 1)) b) with
  | Some (acc, i') =>
      if (length acc <=? 19)%nat
      then Ok (Int.to_byte (Int.add 48 i') :: acc, i')
      else Panic "index out of range"
  | None => Panic "index out of range"
  end.
Proof.
  induction fuel as [| fuel IH]; intros b bp i wid Hb Hbp Hf; [lia |].
  simpl. destruct ((10 <=? i) || (1 <? wid)).
  - destruct (Z.eq_dec bp (-1)) as [-> | Hne].
    + rewrite store_out by lia. simpl.
      match goal with |- context [itoa_digits ?f ?a ?w ?l] =>
        destruct (itoa_digits f a w l) as [[acc i'] |] eqn:E end; [| reflexivity].
      apply itoa_digits_grows in E. change (Z.to_nat (-1 + 1)) with 0%nat in E.
      rewrite drop_0 in E. simpl in E.
      destruct (Nat.leb_spec (length acc) 19); [lia | reflexivity].
    + destruct (store_in b bp (Int.to_byte (Int.sub (Int.add 48 i) (Int.mul (Int.quot i 10) 10))))
        as [-> Hd]; [lia |].
      rewrite sub1 by (unfold Int.min_int, Int.max_int; lia).
      rewrite IH; [| now rewrite length_insert | lia | lia].
      replace (bp - 1 + 1) with bp by lia. now rewrite Hd.
  - simpl. destruct (Z.eq_dec bp (-1)) as [-> | Hne].
    + rewrite store_out by lia. change (Z.to_nat (-1 + 1)) with 0%nat.
      rewrite drop_0.
      destruct (Nat.leb_spec (length b) 19); [lia | reflexivity].
    + destruct (store_in b bp (Int.to_byte (Int.add 48 i))) as [-> Hd]; [lia |].
      rewrite Hd. rewrite length_drop.
      destruct (Nat.leb_spec (length b - Z.to_nat (bp + 1)) 19); [reflexivity | lia].
Qed.

Lemma itoa_bytes_refines i wid :
  itoa_bytes i wid =
  match itoa_digits 21 i wid [] with
  | Some (acc, i') =>
      if (length acc <=? 19)%nat
      then Ok (Int.to_byte (Int.add 48 i') :: acc, i')
      else Panic "index out of range"
  | None => Panic "index out of range"
  end.
Proof.
  unfold itoa_bytes. rewrite itoa_loop_refines; [reflexivity | reflexivity | lia | lia].
Qed.

End ItoaFacts.

(** ** What the list loop computes *)

Module LoopFacts.
Import IntFacts DigitFacts ItoaFacts.

Ltac ilia := unfold Int.in_range, Int.min_int, Int.max_int in *; lia.

Lemma pad0_length w ds :
  Z.of_nat (length (pad0 w ds)) = Z.max w (Z.of_nat (length ds)).
Proof. unfold pad0. rewrite length_app, length_replicate. lia. Qed.

Lemma pad0_wide w ds : w <= Z.of_nat (length ds) -> pad0 w ds = ds.
Proof.
  intros Hw. unfold pad0.
  now replace (Z.to_nat (w - Z.of_nat (length ds))) with 0%nat by lia.
Qed.

Lemma pad0_snoc w ds c : pad0 w (ds ++ [c]) = pad0 (w - 1) ds ++ [c].
Proof.
  unfold pad0. rewrite length_app, <- app_assoc. simpl. do 2 f_equal. lia.
Qed.

Lemma pad0_zero w c : 1 < w -> pad0 w [c] = pad0 (w - 1) [char0] ++ [c].
Proof.
  intros Hw. unfold pad0. simpl length.
  replace (Z.to_nat (w - Z.of_nat 1)) with (S (Z.to_nat (w - 1 - Z.of_nat 1))) by lia.
  now rewrite replicate_S_end.
Qed.

Lemma add48 i : 0 <= i <= 9 -> Int.add 48 i = 48 + i.
Proof.
  intros Hi. apply wrap_id. unfold Int.in_range, Int.min_int, Int.max_int. lia.
Qed.

(** Non-negative numbers: the loop leaves the padded decimal digits. *)
Lemma itoa_digits_spec fuel : forall i wid acc,
  0 <= i <= Int.max_int -> Int.in_range wid ->
  Z.max (Z.of_nat (length (Fmt.digits i))) wid <= Z.of_nat fuel ->
  Int.min_int + Z.max (Z.of_nat (length (Fmt.digits i))) wid <= wid + 1 ->
  exists acc' i',
    itoa_digits fuel i wid acc = Some (acc', i') /\
    0 <= i' <= 9 /\
    Int.to_byte (Int.add 48 i') :: acc' = pad0 wid (Fmt.digits i) ++ acc.
Proof.
  induction fuel as [| fuel IH]; intros i wid acc Hi Hw Hf Hwrap.
  - exfalso. pose proof (digits_length_pos i). lia.
  - simpl. assert (Hir : Int.in_range i) by (unfold Int.in_range, Int.min_int, Int.max_int in *; lia).
    rewrite digit_byte, quot_nonneg, Z.rem_mod_nonneg by (assumption || lia).
    destruct (Z.leb_spec 10 i) as [Hge | Hlt]; simpl.
    + (* one more digit of [i] *)
      assert (Hd := digits_step i Hge).
      assert (Hl : length (Fmt.digits i) = S (length (Fmt.digits (i / 10))))
        by (rewrite Hd, length_app; simpl; lia).
      assert (0 <= i / 10 <= i) by (pose proof (Z.div_pos i 10); pose proof (Z.div_lt i 10); lia).
      pose proof (digits_length_pos (i / 10)).
      rewrite sub1 by ilia.
      destruct (IH (i / 10) (wid - 1) (Int.to_byte (48 + i mod 10) :: acc))
        as (acc' & i' & E & Hi' & Hout); [ilia | ilia | lia | ilia |].
      exists acc', i'. split; [exact E |]. split; [exact Hi' |].
      rewrite Hout, Hd, pad0_snoc, <- app_assoc. reflexivity.
    + rewrite digits_small in * by lia. simpl in Hf, Hwrap.
      destruct (Z.ltb_spec 1 wid) as [Hpad | Hstop].
      * (* a padding zero *)
        unfold Int.in_range in Hw. rewrite sub1 by ilia.
        rewrite Z.div_small, Z.mod_small by lia.
        destruct (IH 0 (wid - 1) (Int.to_byte (48 + i) :: acc))
          as (acc' & i' & E & Hi' & Hout);
          [unfold Int.max_int; lia | unfold Int.in_range; lia
          | rewrite digits_small by lia; simpl; lia
          | rewrite digits_small by lia; simpl; lia |].
        exists acc', i'. split; [exact E |]. split; [exact Hi' |].
        rewrite Hout, (digits_small 0) by lia.
        rewrite (pad0_zero wid), <- app_assoc by lia. reflexivity.
      * exists acc, i. split; [reflexivity |]. split; [lia |].
        rewrite add48 by lia. rewrite pad0_wide by (simpl; lia). reflexivity.
Qed.

(** Numbers below ten, negative ones included: the loop runs for the
    padding only. *)
Lemma itoa_digits_small fuel : forall i wid acc,
  Int.in_range i -> i < 10 -> Int.in_range wid -> wid <= Z.of_nat fuel ->
  (0 < fuel)%nat ->
  exists acc' i',
    itoa_digits fuel i wid acc = Some (acc', i') /\
    Z.of_nat (length acc') = Z.of_nat (length acc) + Z.max 0 (wid - 1).
Proof.
  induction fuel as [| fuel IH]; intros i wid acc Hi Hlt Hw Hf Hpos; [lia |].
  simpl. destruct (Z.leb_spec 10 i); [lia |]. simpl.
  destruct (Z.ltb_spec 1 wid) as [Hpad | Hstop].
  - unfold Int.in_range in Hw. rewrite sub1 by ilia.
    assert (Hq : Int.in_range (Z.quot i 10)) by (apply quot_range; [lia | exact Hi]).
    assert (Z.quot i 10 < 10).
    { destruct (Z.le_gt_cases 0 i).
      - rewrite Z.quot_small; lia.
      - pose proof (Z.quot_opp_l i 10 ltac:(lia)) as E.
        pose proof (Z.quot_pos (- i) 10). lia. }
    unfold Int.quot. rewrite (wrap_id _ Hq).
    edestruct (IH (Z.quot i 10) (wid - 1)) as (acc' & i' & E & Hl);
      [exact Hq | lia | ilia | lia | lia |].
    exists acc', i'. split; [exact E |]. rewrite Hl. simpl. lia.
  - exists acc, i. split; [reflexivity | lia].
Qed.

(** A width of [wid] costs at least [wid - 1] iterations. *)
Lemma itoa_digits_lower fuel : forall i wid acc acc' i',
  Int.in_range wid ->
  itoa_digits fuel i wid acc = Some (acc', i') ->
  Z.of_nat (length acc) + Z.max 0 (wid - 1) <= Z.of_nat (length acc').
Proof.
  induction fuel as [| fuel IH]; intros i wid acc acc' i' Hw; simpl; [discriminate |].
  destruct ((10 <=? i) || (1 <? wid)) eqn:C.
  - intros E. destruct (Z.lt_ge_cases 1 wid) as [Hpad | Hstop].
    + unfold Int.in_range in Hw. rewrite sub1 in E by ilia.
      apply IH in E; [| ilia]. simpl in E. lia.
    + apply itoa_digits_grows in E. simpl in E. lia.
  - intros [= -> _]. apply orb_false_iff in C as [_ C].
    apply Z.ltb_ge in C. lia.
Qed.

Lemma max_int_digits i : 0 <= i <= Int.max_int ->
  Z.of_nat (length (Fmt.digits i)) <= 19.
Proof.
  intros Hi. apply digits_length_le; [lia | lia |].
  unfold Int.max_int in Hi. lia.
Qed.

(** [itoa] on a non-negative number and a width of at most twenty. *)
Lemma itoa_bytes_nonneg i wid :
  0 <= i <= Int.max_int -> Int.min_int + 18 <= wid <= 20 ->
  exists i', itoa_bytes i wid = Ok (pad0 wid (Fmt.digits i), i') /\ 0 <= i' <= 9.
Proof.
  intros Hi Hw. pose proof (max_int_digits i Hi) as Hd.
  destruct (itoa_digits_spec 21 i wid [] Hi) as (acc & i' & E & Hi' & Hout);
    [ilia | ilia | ilia |].
  rewrite itoa_bytes_refines, E. rewrite app_nil_r in Hout.
  pose proof (pad0_length wid (Fmt.digits i)) as Hl. rewrite <- Hout in Hl.
  simpl length in Hl.
  destruct (Nat.leb_spec (length acc) 19); [| lia].
  exists i'. rewrite Hout. split; [reflexivity | exact Hi'].
Qed.

(** [itoa] does not panic on any number when the width is at most
    twenty. *)
Lemma itoa_bytes_total i wid :
  Int.in_range i -> Int.min_int + 18 <= wid <= 20 ->
  exists p i', itoa_bytes i wid = Ok (p, i').
Proof.
  intros Hi Hw. destruct (Z.le_gt_cases 0 i) as [Hpos | Hneg].
  - destruct (itoa_bytes_nonneg i wid) as (i' & E & _);
      [ilia | lia |]. eauto.
  - destruct (itoa_digits_small 21 i wid [] Hi) as (acc & i' & E & Hl);
      [lia | ilia | lia | lia |].
    rewrite itoa_bytes_refines, E. simpl length in Hl.
    destruct (Nat.leb_spec (length acc) 19); [eauto | lia].
Qed.

(** A width above twenty overruns the array. *)
Lemma itoa_bytes_wide i wid :
  20 < wid <= Int.max_int -> itoa_bytes i wid = Panic "index out of range".
Proof.
  intros Hw. rewrite itoa_bytes_refines.
  destruct (itoa_digits 21 i wid []) as [[acc i'] |] eqn:E; [| reflexivity].
  apply itoa_digits_lower in E;
    [| ilia].
  simpl length in E.
  destruct (Nat.leb_spec (length acc) 19); [lia | reflexivity].
Qed.

End LoopFacts.

(** ** Running the helpers *)

Module RunFacts.
Import IntFacts DigitFacts ItoaFacts LoopFacts.

Section AnyWriter.
Context {W : Type} `{Writer W}.

Lemma returns_ret {A} (a : A) (Q : A -> World W -> World W -> Prop) :
  (forall σ, Q a σ σ) -> returns (ret a) Q.
Proof. intros HQ σ. exists a, σ. split; [reflexivity | apply HQ]. Qed.

(** Sequencing two computations that keep standard error. *)
Lemma returns_seq {A B} (m : M W A) (k : M W B) (P : B -> Prop) :
  returns m keeps_stderr ->
  returns k (fun b σ σ' => P b /\ keeps_stderr b σ σ') ->
  returns (m >> k) (fun b σ σ' => P b /\ keeps_stderr b σ σ').
Proof.
  intros Hm Hk σ. destruct (Hm σ) as (a & σ1 & E1 & H1).
  destruct (Hk σ1) as (b & σ2 & E2 & HP & H2).
  exists b, σ2. unfold bind. rewrite E1. split; [exact E2 |].
  split; [exact HP |]. unfold keeps_stderr in *. now transitivity (stderr σ1).
Qed.

Lemma writeString_returns str : returns (writeString str) keeps_stderr.
Proof.
  intros σ. unfold writeString, keeps_stderr.
  destruct (Write (stream σ) (bytes_of str)) as [w [n [e |]]]; eexists _, _;
    (split; [reflexivity |]); simpl.
  - now apply prefix_app_r.
  - reflexivity.
Qed.

Lemma itoa_returns i wid :
  Int.in_range i -> Int.min_int + 18 <= wid <= 20 ->
  returns (itoa i wid) keeps_stderr.
Proof.
  intros Hi Hw σ. destruct (itoa_bytes_total i wid Hi Hw) as (p & i' & E).
  unfold itoa, keeps_stderr. rewrite E.
  destruct (Write (stream σ) p) as [w [n [e |]]]; eexists _, _;
    (split; [reflexivity |]); simpl.
  - now apply prefix_app_r.
  - reflexivity.
Qed.

(** A failed write of [writeString] ends up on standard error and
    nowhere else. *)
Lemma writeString_failure str σ w n e :
  Write (stream σ) (bytes_of str) = (w, (n, Some e)) ->
  writeString str σ =
  Ok (tt, {| stream := w;
             stderr := stderr σ ++ [("could not write entry log, err: " +:+ e)%string] |}).
Proof. intros E. unfold writeString. now rewrite E. Qed.

Lemma itoa_failure i wid p i' σ w n e :
  itoa_bytes i wid = Ok (p, i') ->
  Write (stream σ) p = (w, (n, Some e)) ->
  itoa i wid σ =
  Ok (tt, {| stream := w;
             stderr := stderr σ ++ [Fmt.Sprintf "failed adding zero padding to %d" [i']] |}).
Proof. intros E1 E2. unfold itoa. now rewrite E1, E2. Qed.

End AnyWriter.

Lemma in_range_small i : -1000000000 <= i <= 1000000000 -> Int.in_range i.
Proof. unfold Int.in_range, Int.min_int, Int.max_int. lia. Qed.

Lemma micro_range n : 0 <= n <= 999999999 ->
  Int.quot n 1000 = n / 1000 /\ 0 <= n / 1000 <= 999999.
Proof.
  intros Hn. unfold Int.quot. rewrite Z.quot_div_nonneg by lia.
  assert (0 <= n / 1000 <= 999999).
  { split; [apply Z.div_pos; lia |]. apply Z.lt_succ_r, Z.div_lt_upper_bound; lia. }
  split; [| assumption]. apply wrap_id, in_range_small. lia.
Qed.

(** *** In-memory streams *)

Lemma writeString_buffer str σ :
  writeString str σ = Ok (tt, appended (bytes_of str) σ).
Proof. reflexivity. Qed.

Lemma itoa_text_eq i wid p i' : itoa_bytes i wid = Ok (p, i') -> itoa_text i wid = p.
Proof. intros E. unfold itoa_text. now rewrite E. Qed.

Lemma itoa_buffer i wid σ :
  Int.in_range i -> Int.min_int + 18 <= wid <= 20 ->
  itoa i wid σ = Ok (tt, appended (itoa_text i wid) σ).
Proof.
  intros Hi Hw. destruct (itoa_bytes_total i wid Hi Hw) as (p & i' & E).
  unfold itoa. rewrite (itoa_text_eq _ _ _ _ E), E. reflexivity.
Qed.

Lemma appended_appended p q (σ : World Buffer) :
  appended q (appended p σ) = appended (p ++ q) σ.
Proof. unfold appended. simpl. now rewrite app_assoc. Qed.

Lemma itoa_text_nonneg i wid :
  0 <= i <= Int.max_int -> Int.min_int + 18 <= wid <= 20 ->
  itoa_text i wid = pad0 wid (Fmt.digits i).
Proof.
  intros Hi Hw. destruct (itoa_bytes_nonneg i wid Hi Hw) as (i' & E & _).
  now apply itoa_text_eq in E.
Qed.

End RunFacts.

(** ** The text formatter on an in-memory stream *)

Module TextFacts.
Import IntFacts DigitFacts ItoaFacts LoopFacts RunFacts.

Lemma Format_buffer l msg t σ :
  valid_time t ->
  TextFormatter.Format l msg t σ =
  Ok (None, appended (text_stamp t ++ bytes_of " " ++
                      bytes_of (TextFormatter.label (logLevel l)) ++ text_tail msg) σ).
Proof.
  intros (Hy & Hmo & Hd & Hh & Hmi & Hs & Hn).
  destruct (micro_range _ Hn) as [Eq Hq].
  unfold TextFormatter.Format, bind.
  repeat first
    [ rewrite writeString_buffer
    | rewrite itoa_buffer by (first [exact Hy | apply in_range_small; lia | ilia]) ].
  unfold text_tail, text_stamp.
  destruct (TextFormatter.needs_newline msg); unfold ret;
    rewrite ?writeString_buffer, !appended_appended;
    do 3 f_equal; rewrite <- ?app_assoc, ?app_nil_r; reflexivity.
Qed.
End TextFacts.

(** ** [Sprintf] and the timestamp *)

Module StampFacts.
Import IntFacts DigitFacts ItoaFacts LoopFacts RunFacts TextFacts.

Lemma fmt_d v : 0 <= v -> Fmt.fmtInteger false None v = Fmt.digits v.
Proof.
  intros Hv. unfold Fmt.fmtInteger.
  destruct (Z.ltb_spec v 0); [lia |]. rewrite Z.abs_eq by lia.
  now replace (Z.to_nat (0 - Z.of_nat (length (Fmt.digits v)))) with 0%nat by lia.
Qed.

Lemma fmt_0d w v : 0 <= v -> Fmt.fmtInteger true (Some w) v = pad0 w (Fmt.digits v).
Proof.
  intros Hv. unfold Fmt.fmtInteger.
  destruct (Z.ltb_spec v 0); [lia |]. rewrite Z.abs_eq by lia.
  fold (pad0 w (Fmt.digits v)). pose proof (pad0_length w (Fmt.digits v)).
  now replace (Z.to_nat (w - Z.of_nat (length (pad0 w (Fmt.digits v))))) with 0%nat by lia.
Qed.

(** The format string of [getTimestamp], directive by directive. *)
Lemma getTimestamp_unfold t :
  bytes_of (getTimestamp t) =
  Fmt.fmtInteger false None (year t) ++ bytes_of "-" ++
  Fmt.fmtInteger true (Some 2) (month t) ++ bytes_of "-" ++
  Fmt.fmtInteger true (Some 2) (day t) ++ bytes_of " " ++
  Fmt.fmtInteger true (Some 2) (hour t) ++ bytes_of ":" ++
  Fmt.fmtInteger true (Some 2) (min t) ++ bytes_of ":" ++
  Fmt.fmtInteger true (Some 2) (sec t) ++ bytes_of ":" ++
  Fmt.fmtInteger true (Some 6) (Int.quot (nsec t) 1000).
Proof.
  unfold getTimestamp, Fmt.Sprintf, bytes_of.
  rewrite list_ascii_of_string_of_list_ascii.
  cbv - [Fmt.fmtInteger year month day hour min sec nsec Int.quot app].
  rewrite app_nil_r. reflexivity.
Qed.

Lemma matches_field n : forall f pat s,
  length f = n -> forallb is_digit f = true ->
  matches (replicate n "d"%char ++ pat) (f ++ s) = matches pat s.
Proof.
  induction n as [| n IH]; intros [| c f] pat s Hl Hd; try discriminate; [reflexivity |].
  simpl in *. apply andb_true_iff in Hd as [-> Hd]. apply IH; [lia | exact Hd].
Qed.

Lemma pad0_digits w v : 0 <= v -> forallb is_digit (pad0 w (Fmt.digits v)) = true.
Proof.
  intros Hv. unfold pad0. rewrite forallb_app, digits_all, andb_true_r by lia.
  induction (Z.to_nat (w - Z.of_nat (length (Fmt.digits v)))); [reflexivity | assumption].
Qed.

(** A value that fits its field fills it exactly. *)
Lemma pad0_exact w v : 0 < w -> 0 <= v < 10 ^ w ->
  length (pad0 w (Fmt.digits v)) = Z.to_nat w.
Proof.
  intros Hw Hv. pose proof (pad0_length w (Fmt.digits v)).
  pose proof (digits_length_le v ltac:(lia) w Hw ltac:(lia)). lia.
Qed.

Lemma four_digits y : 1000 <= y <= 9999 -> length (Fmt.digits y) = 4%nat.
Proof.
  intros Hy. pose proof (digits_length_le y ltac:(lia) 4 ltac:(lia) ltac:(lia)).
  pose proof (digits_length_gt y ltac:(lia) 3 ltac:(lia) ltac:(lia)). lia.
Qed.

(** From the year 1000 on [getTimestamp] writes the year with all its
    digits and the other fields in their fixed widths. *)
Lemma getTimestamp_nonneg t :
  valid_time t -> 0 <= year t ->
  bytes_of (getTimestamp t) =
  Fmt.digits (year t) ++ bytes_of "-" ++
  pad0 2 (Fmt.digits (month t)) ++ bytes_of "-" ++
  pad0 2 (Fmt.digits (day t)) ++ bytes_of " " ++
  pad0 2 (Fmt.digits (hour t)) ++ bytes_of ":" ++
  pad0 2 (Fmt.digits (min t)) ++ bytes_of ":" ++
  pad0 2 (Fmt.digits (sec t)) ++ bytes_of ":" ++
  pad0 6 (Fmt.digits (nsec t / 1000)).
Proof.
  intros (Hy & Hmo & Hd & Hh & Hmi & Hs & Hn) Hy0.
  destruct (micro_range _ Hn) as [Eq Hq].
  rewrite getTimestamp_unfold, Eq, fmt_d, !fmt_0d by lia. reflexivity.
Qed.

Lemma text_stamp_nonneg t :
  valid_time t -> 0 <= year t ->
  text_stamp t =
  pad0 4 (Fmt.digits (year t)) ++ bytes_of "-" ++
  pad0 2 (Fmt.digits (month t)) ++ bytes_of "-" ++
  pad0 2 (Fmt.digits (day t)) ++ bytes_of " " ++
  pad0 2 (Fmt.digits (hour t)) ++ bytes_of ":" ++
  pad0 2 (Fmt.digits (min t)) ++ bytes_of ":" ++
  pad0 2 (Fmt.digits (sec t)) ++ bytes_of ":" ++
  pad0 6 (Fmt.digits (nsec t / 1000)).
Proof.
  intros (Hy & Hmo & Hd & Hh & Hmi & Hs & Hn) Hy0.
  destruct (micro_range _ Hn) as [Eq Hq].
  unfold text_stamp. rewrite Eq.
  rewrite !itoa_text_nonneg by ilia. reflexivity.
Qed.

(** The two renderings of the date and time agree from the year 1000 on. *)
Lemma stamps_agree t :
  valid_time t -> 1000 <= year t -> text_stamp t = bytes_of (getTimestamp t).
Proof.
  intros Hv Hy. rewrite text_stamp_nonneg, getTimestamp_nonneg by (assumption || lia).
  f_equal. apply pad0_wide.
  pose proof (digits_length_gt (year t) ltac:(lia) 3 ltac:(lia) ltac:(lia)). lia.
Qed.

Lemma clock_matches t :
  valid_time t ->
  matches clock_layout
    (bytes_of "-" ++
     pad0 2 (Fmt.digits (month t)) ++ bytes_of "-" ++
     pad0 2 (Fmt.digits (day t)) ++ bytes_of " " ++
     pad0 2 (Fmt.digits (hour t)) ++ bytes_of ":" ++
     pad0 2 (Fmt.digits (min t)) ++ bytes_of ":" ++
     pad0 2 (Fmt.digits (sec t)) ++ bytes_of ":" ++
     pad0 6 (Fmt.digits (nsec t / 1000))) = true.
Proof.
  intros (Hy & Hmo & Hd & Hh & Hmi & Hs & Hn).
  destruct (micro_range _ Hn) as [Eq Hq].
  change clock_layout with
    ("-"%char :: replicate 2 "d"%char ++ "-"%char :: replicate 2 "d"%char ++
     " "%char :: replicate 2 "d"%char ++ ":"%char :: replicate 2 "d"%char ++
     ":"%char :: replicate 2 "d"%char ++ ":"%char :: replicate 6 "d"%char ++ []).
  repeat (cbn [bytes_of list_ascii_of_string app matches Ascii.eqb Bool.eqb andb];
          rewrite matches_field by
            (first [ apply pad0_digits; lia
                   | rewrite pad0_exact by lia; reflexivity ])).
  rewrite <- (app_nil_r (pad0 6 _)).
  cbn [matches Ascii.eqb Bool.eqb andb].
  rewrite matches_field by
    (first [ apply pad0_digits; lia | rewrite pad0_exact by lia; reflexivity ]).
  reflexivity.
Qed.

End StampFacts.

(** ** Properties of the formatters *)

Import IntFacts DigitFacts ItoaFacts LoopFacts RunFacts TextFacts StampFacts.

Ltac valid_example :=
  unfold valid_time, Int.in_range, Int.min_int, Int.max_int; simpl; lia.

(** C1. For the level [Nfo], the message ["started"] and the timestamp
    2024-01-05T08:03:09.123456 the text formatter writes exactly
    ["2024-01-05 08:03:09:123456 NFO started"] followed by one newline,
    returns no error and leaves standard error alone. *)
Theorem Format_text_example (fs : gmap string Value) :
  TextFormatter.Format {| fields := fs; logLevel := Nfo |} "started" example_time fresh
  = Ok (None,
        {| stream := {| contents :=
                          bytes_of "2024-01-05 08:03:09:123456 NFO started" ++ [newline] |};
           stderr := [] |}).
Proof. vm_compute. reflexivity. Qed.

(** C3. At the year 999 the two renderings of the date and time differ:
    the text formatter pads the year to four digits, [getTimestamp] does
    not. *)
Theorem stamps_differ_year_999 :
  let t := with_year 999 example_time in
  valid_time t /\
  text_stamp t = bytes_of "0999-01-05 08:03:09:123456" /\
  getTimestamp t = "999-01-05 08:03:09:123456"%string /\
  text_output {| fields := ∅; logLevel := Nfo |} "started" t
  = Ok (bytes_of "0999-01-05 08:03:09:123456 NFO started" ++ [newline]) /\
  text_stamp t <> bytes_of (getTimestamp t).
Proof.
  split; [valid_example |].
  split; [vm_compute; reflexivity |].
  split; [vm_compute; reflexivity |].
  split; [vm_compute; reflexivity |].
  vm_compute. discriminate.
Qed.

(** C5, as stated, fails: with the width 21 the array of twenty bytes is
    overrun and nothing is written. *)
Lemma itoa_width_21_panics :
  0 <= 0 <= Int.max_int /\
  itoa_bytes 0 21 = Panic "index out of range" /\
  itoa 0 21 fresh = Panic "index out of range".
Proof. split; [unfold Int.max_int; lia |]. split; vm_compute; reflexivity. Qed.

(** C5, amended. For a non-negative [i] and a width between
    [min_int + 18] and 20, [itoa] writes the decimal digits of [i]
    behind as many ['0'] as it takes to reach the width: the digits are
    those of [i] without a leading zero, the output has exactly the
    width when the digits fit, and is the bare digits otherwise. *)
Theorem itoa_pads (i wid : Z) :
  0 <= i <= Int.max_int -> Int.min_int + 18 <= wid <= 20 ->
  let ds := Fmt.digits i in
  let out := replicate (Z.to_nat (wid - Z.of_nat (length ds))) char0 ++ ds in
  (exists i', itoa_bytes i wid = Ok (out, i')) /\
  (forall σ : World Buffer, itoa i wid σ = Ok (tt, appended out σ)) /\
  forallb is_digit ds = true /\
  decimal_value ds = i /\
  (0 < i -> head ds <> Some char0) /\
  (Z.of_nat (length ds) <= wid -> Z.of_nat (length out) = wid) /\
  (wid <= Z.of_nat (length ds) -> out = ds).
Proof.
  intros Hi Hw ds out.
  destruct (itoa_bytes_nonneg i wid Hi Hw) as (i' & E & _).
  split; [exists i'; exact E |].
  split.
  { intros σ. rewrite itoa_buffer by ilia. now rewrite (itoa_text_eq _ _ _ _ E). }
  split; [apply digits_all; lia |].
  split; [apply digits_value; lia |].
  split; [apply digits_head |].
  split.
  - intros Hl. pose proof (pad0_length wid ds). unfold pad0 in *. fold out in H. lia.
  - apply pad0_wide.
Qed.

Lemma itoa_pads_witness :
  (exists i', itoa_bytes 7 2 = Ok ([char0; "7"%char], i')) /\
  (exists i', itoa_bytes 123456 4 = Ok (bytes_of "123456", i')).
Proof.
  split.
  - apply (itoa_pads 7 2); unfold Int.min_int, Int.max_int; lia.
  - apply (itoa_pads 123456 4); unfold Int.min_int, Int.max_int; lia.
Defined.

(** C10, as stated, fails: the width [min_int] is at most 20, yet its
    decrement wraps around to [max_int] and the loop overruns the
    array. *)
Lemma itoa_min_width_panics :
  0 <= 10 <= Int.max_int /\ Int.min_int <= 20 /\
  Int.sub Int.min_int 1 = Int.max_int /\
  itoa_bytes 10 Int.min_int = Panic "index out of range".
Proof.
  split; [unfold Int.max_int; lia |]. split; [unfold Int.min_int; lia |].
  split; vm_compute; reflexivity.
Qed.

(** C10, amended. For a non-negative [i]: with a width between
    [min_int + 18] and 20 no access leaves the array, and at most twenty
    bytes are written; with a width above 20 the array is overrun. *)
Theorem itoa_in_bounds (i wid : Z) :
  0 <= i <= Int.max_int -> Int.in_range wid ->
  (Int.min_int + 18 <= wid <= 20 ->
   exists p i', itoa_bytes i wid = Ok (p, i') /\ (length p <= 20)%nat) /\
  (20 < wid -> itoa_bytes i wid = Panic "index out of range").
Proof.
  intros Hi Hr. split.
  - intros Hw. destruct (itoa_bytes_nonneg i wid Hi Hw) as (i' & E & _).
    exists (pad0 wid (Fmt.digits i)), i'. split; [exact E |].
    pose proof (pad0_length wid (Fmt.digits i)). pose proof (max_int_digits i Hi). lia.
  - intros Hw. apply itoa_bytes_wide. ilia.
Qed.

Lemma itoa_in_bounds_witness :
  (exists p i', itoa_bytes 2024 4 = Ok (p, i') /\ (length p <= 20)%nat) /\
  itoa_bytes 0 21 = Panic "index out of range".
Proof.
  split.
  - apply (itoa_in_bounds 2024 4);
      unfold Int.in_range, Int.min_int, Int.max_int; lia.
  - apply (itoa_in_bounds 0 21);
      unfold Int.in_range, Int.min_int, Int.max_int; lia.
Defined.

(** C2, as stated, fails: the year 10000 takes five characters, so the
    string does not match the layout. *)
Lemma getTimestamp_year_10000 :
  let t := with_year 10000 example_time in
  valid_time t /\
  getTimestamp t = "10000-01-05 08:03:09:123456"%string /\
  matches timestamp_layout (bytes_of (getTimestamp t)) = false.
Proof.
  split; [valid_example |]. split; vm_compute; reflexivity.
Qed.

(** C2, amended. From the year 1000 on, [getTimestamp] returns the
    digits of the year, at least four of them and without padding,
    followed by [-MM-DD HH:MM:SS:MMMMMM] in fixed widths; up to the year
    9999 the whole string matches [YYYY-MM-DD HH:MM:SS:MMMMMM]. *)
Theorem getTimestamp_layout (t : Time) :
  valid_time t -> 1000 <= year t ->
  exists rest,
    bytes_of (getTimestamp t) = Fmt.digits (year t) ++ rest /\
    matches clock_layout rest = true /\
    forallb is_digit (Fmt.digits (year t)) = true /\
    decimal_value (Fmt.digits (year t)) = year t /\
    (4 <= length (Fmt.digits (year t)))%nat /\
    (year t <= 9999 -> matches timestamp_layout (bytes_of (getTimestamp t)) = true).
Proof.
  intros Hv Hy. eexists. split; [apply getTimestamp_nonneg; [exact Hv | lia] |].
  pose proof (clock_matches t Hv) as Hc.
  split; [exact Hc |].
  split; [apply digits_all; lia |].
  split; [apply digits_value; lia |].
  split.
  - pose proof (digits_length_gt (year t) ltac:(lia) 3 ltac:(lia) ltac:(lia)). lia.
  - intros Hy'. rewrite getTimestamp_nonneg by (assumption || lia).
    change timestamp_layout with (replicate 4 "d"%char ++ clock_layout).
    rewrite matches_field; [exact Hc | apply four_digits; lia | apply digits_all; lia].
Qed.

Lemma getTimestamp_layout_witness :
  exists rest,
    bytes_of (getTimestamp example_time) = Fmt.digits 2024 ++ rest /\
    matches clock_layout rest = true /\
    forallb is_digit (Fmt.digits 2024) = true /\
    decimal_value (Fmt.digits 2024) = 2024 /\
    (4 <= length (Fmt.digits 2024))%nat /\
    (2024 <= 9999 -> matches timestamp_layout (bytes_of (getTimestamp example_time)) = true).
Proof.
  apply (getTimestamp_layout example_time); [valid_example | simpl; lia].
Defined.

(** *** The end of the line *)

Lemma two_newlines_snoc (l : bytes) c :
  ends_with_two_newlines (l ++ [c]) <-> c = newline /\ last l = Some newline.
Proof.
  unfold ends_with_two_newlines. split.
  - intros [k E]. change [newline; newline] with ([newline] ++ [newline]) in E.
    rewrite app_assoc in E. apply app_inj_tail in E as [-> ->].
    split; [reflexivity | apply last_snoc].
  - intros [-> Hl]. apply last_Some in Hl as [k ->].
    exists k. now rewrite <- app_assoc.
Qed.

Lemma head_last (t : Time) lvl :
  last (text_stamp t ++ bytes_of " " ++ bytes_of (TextFormatter.label lvl)) = Some " "%char.
Proof.
  rewrite app_assoc. destruct lvl; simpl bytes_of;
    try (rewrite last_app; reflexivity).
  rewrite app_nil_r. apply last_snoc.
Qed.

Lemma needs_newline_spec msg :
  TextFormatter.needs_newline msg = true <->
  msg = ""%string \/ last (bytes_of msg) <> Some newline.
Proof.
  unfold TextFormatter.needs_newline.
  destruct (last (bytes_of msg)) as [c |] eqn:E.
  - destruct (Ascii.eqb_spec c newline) as [-> | Hne]; simpl; split.
    + discriminate.
    + intros [-> | Hl]; [discriminate | congruence].
    + right. congruence.
    + reflexivity.
  - split; [| reflexivity]. intros _. left.
    destruct msg; [reflexivity |]. apply last_None in E. discriminate.
Qed.

(** C4, as stated, fails: a message that ends with two newlines is
    written verbatim, and so is the end of the output. *)
Lemma Format_double_newline :
  let msg := ("hello" +:+ String newline (String newline ""))%string in
  text_output {| fields := ∅; logLevel := Nfo |} msg example_time
  = Ok (bytes_of "2024-01-05 08:03:09:123456 NFO hello" ++ [newline; newline]) /\
  ends_with_two_newlines
    (bytes_of "2024-01-05 08:03:09:123456 NFO hello" ++ [newline; newline]).
Proof.
  split; [vm_compute; reflexivity |].
  eexists. reflexivity.
Qed.

(** C4, amended. The text formatter writes the message and then one
    newline exactly when the message is empty or does not end with a
    newline, and nothing otherwise; the output always ends with a
    newline, and it ends with two of them only when the message itself
    does. *)
Theorem Format_newline (l : Logger) (msg : string) (t : Time) :
  valid_time t ->
  let head := text_stamp t ++ bytes_of " " ++ bytes_of (TextFormatter.label (logLevel l)) in
  exists out,
    text_output l msg t = Ok out /\
    (msg = ""%string \/ last (bytes_of msg) <> Some newline ->
     out = head ++ bytes_of msg ++ [newline]) /\
    (msg <> ""%string /\ last (bytes_of msg) = Some newline ->
     out = head ++ bytes_of msg) /\
    last out = Some newline /\
    (ends_with_two_newlines out <-> ends_with_two_newlines (bytes_of msg)).
Proof.
  intros Hv head.
  assert (Hout : text_output l msg t = Ok (head ++ text_tail msg)).
  { unfold text_output. rewrite Format_buffer by exact Hv.
    unfold appended, fresh, head. cbn [contents stream].
    now rewrite app_nil_l, <- !app_assoc. }
  pose proof (head_last t (logLevel l)) as Hh. fold head in Hh.
  clearbody head. exists (head ++ text_tail msg). split; [exact Hout |].
  clear Hout. unfold text_tail.
  pose proof (needs_newline_spec msg) as Hn.
  destruct (TextFormatter.needs_newline msg).
  - assert (Hm : msg = ""%string \/ last (bytes_of msg) <> Some newline) by now apply Hn.
    assert (Hl : last (head ++ bytes_of msg) <> Some newline).
    { rewrite last_app. destruct Hm as [-> | Hm].
      - simpl. rewrite Hh. discriminate.
      - destruct (last (bytes_of msg)); [exact Hm | rewrite Hh; discriminate]. }
    split; [intros _; reflexivity |].
    split; [intros [Hne Hl']; destruct Hm; congruence |].
    split; [now rewrite app_assoc, last_snoc |].
    rewrite app_assoc, two_newlines_snoc. split; [intros [_ Hl']; congruence |].
    intros [k E]. exfalso. destruct Hm as [-> | Hm].
    + destruct k; discriminate.
    + apply Hm. rewrite E. change [newline; newline] with ([newline] ++ [newline]).
      now rewrite app_assoc, last_snoc.
  - assert (Hm : ~ (msg = ""%string \/ last (bytes_of msg) <> Some newline))
      by (intros Hm; apply Hn in Hm; discriminate).
    assert (Hl : last (bytes_of msg) = Some newline).
    { destruct (decide (last (bytes_of msg) = Some newline)); [assumption | tauto]. }
    rewrite app_nil_r.
    split; [intros Hm'; tauto |].
    split; [intros _; reflexivity |].
    split; [now rewrite last_app, Hl |].
    apply last_Some in Hl as [m' Em]. rewrite Em.
    rewrite app_assoc, !two_newlines_snoc.
    rewrite last_app. destruct (last m') as [c |] eqn:Ec; [tauto |].
    rewrite Hh. split; intros [_ Hx]; discriminate.
Qed.

Lemma Format_newline_witness :
  exists out,
    text_output {| fields := ∅; logLevel := Wrn |} "" example_time = Ok out /\
    last out = Some newline /\
    (ends_with_two_newlines out <-> ends_with_two_newlines (bytes_of "")).
Proof.
  destruct (Format_newline {| fields := ∅; logLevel := Wrn |} "" example_time)
    as (out & E & _ & _ & Hl & He); [valid_example |].
  exists out. split; [exact E |]. split; [exact Hl | exact He].
Defined.

(** C9. With a level that is none of the five the text formatter writes
    no label and returns no error; the date, the time, the message and
    the newline are those written for a known level, whose label takes
    four characters. *)
Theorem Format_unknown_level (fs : gmap string Value) (n : Z) (msg : string)
    (t : Time) (σ : World Buffer) :
  valid_time t ->
  TextFormatter.Format {| fields := fs; logLevel := Unknown n |} msg t σ
  = Ok (None, appended (text_stamp t ++ bytes_of " " ++ text_tail msg) σ) /\
  forall lvl, known lvl = true ->
    exists lab,
      length lab = 4%nat /\
      TextFormatter.Format {| fields := fs; logLevel := lvl |} msg t σ
      = Ok (None, appended (text_stamp t ++ bytes_of " " ++ lab ++ text_tail msg) σ).
Proof.
  intros Hv. split.
  - rewrite Format_buffer by exact Hv. reflexivity.
  - intros lvl Hk. exists (bytes_of (TextFormatter.label lvl)).
    split; [destruct lvl; (reflexivity || discriminate) |].
    apply Format_buffer, Hv.
Qed.

Lemma Format_unknown_level_witness :
  TextFormatter.Format {| fields := ∅; logLevel := Unknown 42 |} "started" example_time fresh
  = Ok (None, appended (bytes_of "2024-01-05 08:03:09:123456 started" ++ [newline]) fresh).
Proof.
  destruct (Format_unknown_level ∅ 42 "started" example_time fresh) as [E _];
    [valid_example |].
  rewrite E. vm_compute. reflexivity.
Defined.

(** C6. The text formatter returns no error on every input and every
    stream: it neither panics nor reports a failed write to its caller.
    A write that fails inside [writeString] or [itoa] adds one line to
    standard error and the helper returns normally. *)
Theorem Format_text_no_error {W : Type} `{Writer W}
    (l : Logger) (msg : string) (t : Time) (σ : World W) :
  valid_time t ->
  (exists σ', TextFormatter.Format l msg t σ = Ok (None, σ') /\
              stderr σ `prefix_of` stderr σ') /\
  (forall str w n e,
     Write (stream σ) (bytes_of str) = (w, (n, Some e)) ->
     writeString str σ =
     Ok (tt, {| stream := w;
                stderr := stderr σ ++
                  [("could not write entry log, err: " +:+ e)%string] |})) /\
  (forall i wid p i' w n e,
     itoa_bytes i wid = Ok (p, i') ->
     Write (stream σ) p = (w, (n, Some e)) ->
     itoa i wid σ =
     Ok (tt, {| stream := w;
                stderr := stderr σ ++
                  [Fmt.Sprintf "failed adding zero padding to %d" [i']] |})).
Proof.
  intros (Hy & Hmo & Hd & Hh & Hmi & Hs & Hn).
  destruct (micro_range _ Hn) as [Eq Hq].
  split; [| split; intros; [eapply writeString_failure | eapply itoa_failure]; eassumption].
  assert (Hret : returns (TextFormatter.Format l msg t)
                   (fun r σ σ' => r = None /\ keeps_stderr r σ σ')).
  { unfold TextFormatter.Format.
    repeat (apply returns_seq;
            [first [ apply writeString_returns
                   | apply itoa_returns; [first [exact Hy | apply in_range_small; lia] | ilia]
                   | destruct (TextFormatter.needs_newline msg);
                     [apply writeString_returns
                     | apply returns_ret; intros ?; unfold keeps_stderr; reflexivity] ] |]).
    apply returns_ret. intros σ0. split; [reflexivity |]. unfold keeps_stderr. reflexivity. }
  destruct (Hret σ) as (r & σ' & E & -> & Hp). exists σ'. split; assumption.
Qed.

Lemma Format_text_no_error_witness :
  exists σ',
    TextFormatter.Format {| fields := ∅; logLevel := Nfo |} "started" example_time
      {| stream := {| room := 12; stored := [] |}; stderr := [] |}
    = Ok (None, σ') /\
    [] `prefix_of` stderr σ'.
Proof.
  apply (Format_text_no_error (W := Limited)). valid_example.
Defined.

(** *** The JSON formatter *)

Section JSONFacts.
Context {W : Type} `{Writer W}.
Variable marshal : gmap string Value -> error + bytes.
Variable unknown_name : Z -> string.

(** The field mapping after a call. *)
Lemma Format_json_run l msg t σ :
  let fs := <["level" := VString (JSONFormatter.Level_String unknown_name (logLevel l))]>
              (<["timestamp" := VString (getTimestamp t)]>
                 (<["msg" := VString msg]> (fields l))) in
  let l' := {| fields := fs; logLevel := logLevel l |} in
  JSONFormatter.Format marshal unknown_name l msg t σ =
  Ok ((option_map JSONFormatter.wrap_error (JSONFormatter.Encode marshal fs (stream σ)).2, l'),
      {| stream := (JSONFormatter.Encode marshal fs (stream σ)).1; stderr := stderr σ |}).
Proof.
  intros fs l'. unfold JSONFormatter.Format. fold fs. fold l'.
  destruct (JSONFormatter.Encode marshal fs (stream σ)) as [w [e |]]; reflexivity.
Qed.

Lemma injected_again (fs : gmap string Value) m ts lv :
  let fs' := <["level" := lv]> (<["timestamp" := ts]> (<["msg" := m]> fs)) in
  <["level" := lv]> (<["timestamp" := ts]> (<["msg" := m]> fs')) = fs'.
Proof.
  intros fs'. apply map_eq. intros k. unfold fs'.
  rewrite !lookup_insert. repeat case_decide; congruence.
Qed.

End JSONFacts.

(** C7. Every call of the JSON formatter, failed or not, leaves
    ["msg"], ["timestamp"] and ["level"] bound to the message, the
    formatted timestamp and the level name, whatever was stored under
    these keys before, and leaves every other key and the level as they
    were; a second call with the same message, timestamp and level
    leaves the logger exactly as the first one did. *)
Theorem Format_json_fields {W : Type} `{Writer W}
    (marshal : gmap string Value -> error + bytes) (unknown_name : Z -> string)
    (l : Logger) (msg : string) (t : Time) (σ : World W) :
  exists err l' σ',
    JSONFormatter.Format marshal unknown_name l msg t σ = Ok ((err, l'), σ') /\
    fields l' !! "msg"%string = Some (VString msg) /\
    fields l' !! "timestamp"%string = Some (VString (getTimestamp t)) /\
    fields l' !! "level"%string
      = Some (VString (JSONFormatter.Level_String unknown_name (logLevel l))) /\
    (forall k : string, k <> "msg"%string -> k <> "timestamp"%string -> k <> "level"%string ->
       fields l' !! k = fields l !! k) /\
    logLevel l' = logLevel l /\
    (forall σ2 : World W, exists err2 σ2',
       JSONFormatter.Format marshal unknown_name l' msg t σ2 = Ok ((err2, l'), σ2')).
Proof.
  eexists _, _, _. split; [apply Format_json_run |]. cbn [fields logLevel].
  split; [now rewrite !lookup_insert_ne, lookup_insert_eq by done |].
  split; [now rewrite lookup_insert_ne, lookup_insert_eq by done |].
  split; [now rewrite lookup_insert_eq |].
  split; [intros k H1 H2 H3; now rewrite !lookup_insert_ne by congruence |].
  split; [reflexivity |].
  intros σ2. eexists _, _. rewrite Format_json_run. cbn [fields logLevel].
  rewrite injected_again. reflexivity.
Qed.

Lemma Format_json_fields_witness :
  let l := {| fields := <["msg" := VInt 7]> {["user"%string := VString "a"]};
              logLevel := Err |} in
  exists err l' σ',
    JSONFormatter.Format (W := Buffer) (fun _ => inr []) (fun _ => ""%string)
      l "" example_time fresh = Ok ((err, l'), σ') /\
    fields l' !! "msg"%string = Some (VString "") /\
    fields l' !! "timestamp"%string = Some (VString "2024-01-05 08:03:09:123456") /\
    fields l' !! "level"%string = Some (VString "error") /\
    fields l' !! "user"%string = Some (VString "a").
Proof.
  intros l.
  destruct (Format_json_fields (W := Buffer) (fun _ => inr []) (fun _ => ""%string)
              l "" example_time fresh)
    as (err & l' & σ' & E & Hm & Ht & Hl & Hk & _).
  exists err, l', σ'. split; [exact E |]. split; [exact Hm |].
  split; [exact Ht |]. split; [exact Hl |].
  rewrite Hk by discriminate. reflexivity.
Defined.

(** C8. The JSON formatter returns an error exactly when the encoder
    does, and then the error is the encoder's behind the text
    ["failed to marshal fields to JSON, "]; when the encoder succeeds
    it returns none. A field value the marshaller cannot represent
    makes the encoder fail before anything is written. *)
Theorem Format_json_error {W : Type} `{Writer W}
    (marshal : gmap string Value -> error + bytes) (unknown_name : Z -> string)
    (l : Logger) (msg : string) (t : Time) (σ : World W) :
  exists err l' σ',
    JSONFormatter.Format marshal unknown_name l msg t σ = Ok ((err, l'), σ') /\
    let encoded := JSONFormatter.Encode marshal (fields l') (stream σ) in
    (is_Some err <-> is_Some encoded.2) /\
    (forall e, encoded.2 = Some e ->
       err = Some ("failed to marshal fields to JSON, " +:+ e)%string) /\
    (encoded.2 = None -> err = None) /\
    (forall e, marshal (fields l') = inl e ->
       err = Some ("failed to marshal fields to JSON, " +:+ e)%string /\
       stream σ' = stream σ).
Proof.
  eexists _, _, _. split; [apply Format_json_run |]. cbn [fields stream].
  match goal with |- context [JSONFormatter.Encode marshal ?m _] =>
    generalize m end.
  intros fs.
  split; [| split; [| split]].
  - destruct (JSONFormatter.Encode marshal fs (stream σ)).2; simpl;
      split; intros [x Hx]; (discriminate || eauto).
  - intros e ->. reflexivity.
  - intros ->. reflexivity.
  - intros e He. unfold JSONFormatter.Encode. rewrite He. split; reflexivity.
Qed.

Lemma Format_json_error_witness :
  let l := {| fields := {["cb"%string := VFunc 0]}; logLevel := Err |} in
  let marshal (_ : gmap string Value) : error + bytes :=
    inl "json: unsupported type: func()"%string in
  exists err l' σ',
    JSONFormatter.Format (W := Buffer) marshal (fun _ => ""%string)
      l "" example_time fresh = Ok ((err, l'), σ') /\
    err = Some "failed to marshal fields to JSON, json: unsupported type: func()"%string /\
    stream σ' = stream fresh.
Proof.
  intros l marshal.
  destruct (Format_json_error (W := Buffer) marshal (fun _ => ""%string)
              l "" example_time fresh)
    as (err & l' & σ' & E & _ & _ & _ & Hm).
  exists err, l', σ'. split; [exact E |].
  apply (Hm "json: unsupported type: func()"%string). reflexivity.
Defined.

(** * Further properties *)

(** ** Reading the timestamp back *)

Module ParseFacts.

Lemma zeros_value n : forall acc,
  fold_left (fun a c => 10 * a + digit_val c) (replicate n char0) acc = 10 ^ Z.of_nat n * acc.
Proof.
  induction n as [| n IH]; intros acc; [simpl; lia |].
  rewrite replicate_S. cbn [fold_left]. rewrite IH.
  change (digit_val char0) with 0. rewrite Nat2Z.inj_succ, Z.pow_succ_r by lia. lia.
Qed.

(** Padding zeros do not change the value. *)
Lemma pad0_value w v : 0 <= v -> decimal_value (pad0 w (Fmt.digits v)) = v.
Proof.
  intros Hv. unfold pad0, decimal_value. rewrite fold_left_app, zeros_value, Z.mul_0_r.
  apply digits_value, Hv.
Qed.

Lemma parse_step w ws (f : bytes) sep rest :
  length f = w ->
  parse_fields (w :: ws) (f ++ sep :: rest) = decimal_value f :: parse_fields ws rest.
Proof.
  intros Hl. cbn [parse_fields]. f_equal.
  - f_equal. subst w. apply take_app_length.
  - f_equal. subst w. change (f ++ sep :: rest) with (f ++ [sep] ++ rest).
    rewrite app_assoc. rewrite drop_app_length'; [reflexivity |].
    rewrite length_app. simpl. lia.
Qed.

Lemma parse_last w (f rest : bytes) :
  length f = w -> parse_fields [w] (f ++ rest) = [decimal_value f].
Proof. intros <-. cbn [parse_fields]. now rewrite take_app_length. Qed.

(** The fields of a timestamp written with padded decimal numbers. *)
Lemma parse_padded (y mo d h mi s u : Z) rest :
  0 <= y < 10 ^ 4 -> 0 <= mo < 10 ^ 2 -> 0 <= d < 10 ^ 2 -> 0 <= h < 10 ^ 2 ->
  0 <= mi < 10 ^ 2 -> 0 <= s < 10 ^ 2 -> 0 <= u < 10 ^ 6 ->
  parse_fields stamp_widths
    ((pad0 4 (Fmt.digits y) ++ bytes_of "-" ++
      pad0 2 (Fmt.digits mo) ++ bytes_of "-" ++
      pad0 2 (Fmt.digits d) ++ bytes_of " " ++
      pad0 2 (Fmt.digits h) ++ bytes_of ":" ++
      pad0 2 (Fmt.digits mi) ++ bytes_of ":" ++
      pad0 2 (Fmt.digits s) ++ bytes_of ":" ++
      pad0 6 (Fmt.digits u)) ++ rest)
  = [y; mo; d; h; mi; s; u].
Proof.
  intros Hy Hmo Hd Hh Hmi Hs Hu. unfold stamp_widths.
  rewrite <- !app_assoc. cbn [bytes_of list_ascii_of_string app].
  rewrite !parse_step by (rewrite pad0_exact by lia; reflexivity).
  rewrite parse_last by (rewrite pad0_exact by lia; reflexivity).
  rewrite !pad0_value by lia. reflexivity.
Qed.

End ParseFacts.

Import ParseFacts.

(** X1. For the years 0 to 9999 the date and time the text formatter
    writes match [YYYY-MM-DD HH:MM:SS:MMMMMM], and reading the seven
    fields back gives the year, month, day, hour, minute and second of
    the time and its nanoseconds divided by 1000, rounded down. *)
Theorem text_stamp_round_trip (l : Logger) (msg : string) (t : Time) :
  valid_time t -> 0 <= year t <= 9999 ->
  exists rest,
    text_output l msg t = Ok (text_stamp t ++ rest) /\
    matches timestamp_layout (text_stamp t) = true /\
    parse_fields stamp_widths (text_stamp t ++ rest)
    = [year t; month t; day t; hour t; min t; sec t; nsec t / 1000] /\
    nsec t - 1000 < 1000 * (nsec t / 1000) <= nsec t.
Proof.
  intros Hv Hy. pose proof Hv as (_ & Hmo & Hd & Hh & Hmi & Hs & Hn).
  destruct (micro_range _ Hn) as [_ Hq].
  exists (bytes_of " " ++ bytes_of (TextFormatter.label (logLevel l)) ++ text_tail msg).
  split.
  { unfold text_output. rewrite Format_buffer by exact Hv.
    unfold appended, fresh. cbn [contents stream]. now rewrite app_nil_l. }
  rewrite text_stamp_nonneg by (assumption || lia).
  split.
  { change timestamp_layout with (replicate 4 "d"%char ++ clock_layout).
    rewrite matches_field;
      [apply clock_matches, Hv | apply pad0_exact; lia | apply pad0_digits; lia]. }
  split; [apply parse_padded; lia |].
  pose proof (Z.mul_div_le (nsec t) 1000). pose proof (Z.mod_pos_bound (nsec t) 1000).
  pose proof (Z.div_mod (nsec t) 1000). lia.
Qed.

Lemma text_stamp_round_trip_witness :
  exists rest,
    text_output {| fields := ∅; logLevel := Nfo |} "started" example_time
    = Ok (text_stamp example_time ++ rest) /\
    parse_fields stamp_widths (text_stamp example_time ++ rest)
    = [2024; 1; 5; 8; 3; 9; 123456].
Proof.
  destruct (text_stamp_round_trip {| fields := ∅; logLevel := Nfo |} "started" example_time)
    as (rest & E & _ & Hp & _); [valid_example | simpl; lia |].
  exists rest. split; [exact E | exact Hp].
Defined.

(** X2. From the year 1000 on, the date and time the text formatter
    writes are byte for byte the string [getTimestamp] returns. *)
Theorem stamps_agree_from_1000 (l : Logger) (msg : string) (t : Time) :
  valid_time t -> 1000 <= year t ->
  exists rest,
    text_output l msg t = Ok (bytes_of (getTimestamp t) ++ rest) /\
    rest = bytes_of " " ++ bytes_of (TextFormatter.label (logLevel l)) ++ text_tail msg.
Proof.
  intros Hv Hy.
  exists (bytes_of " " ++ bytes_of (TextFormatter.label (logLevel l)) ++ text_tail msg).
  split; [| reflexivity].
  unfold text_output. rewrite Format_buffer by exact Hv.
  unfold appended, fresh. cbn [contents stream].
  now rewrite app_nil_l, <- stamps_agree by assumption.
Qed.

Lemma stamps_agree_from_1000_witness :
  exists rest,
    text_output {| fields := ∅; logLevel := Err |} "" example_time
    = Ok (bytes_of (getTimestamp example_time) ++ rest).
Proof.
  destruct (stamps_agree_from_1000 {| fields := ∅; logLevel := Err |} "" example_time)
    as (rest & E & _); [valid_example | simpl; lia |].
  exists rest. exact E.
Defined.

(** X3. For the years 1000 to 9999, reading the fields of the string
    [getTimestamp] returns gives the components of the time back, the
    microseconds being the nanoseconds divided by 1000, rounded down. *)
Theorem getTimestamp_round_trip (t : Time) :
  valid_time t -> 1000 <= year t <= 9999 ->
  parse_fields stamp_widths (bytes_of (getTimestamp t))
  = [year t; month t; day t; hour t; min t; sec t; nsec t / 1000] /\
  String.length (getTimestamp t) = 26%nat.
Proof.
  intros Hv Hy. pose proof Hv as (_ & Hmo & Hd & Hh & Hmi & Hs & Hn).
  destruct (micro_range _ Hn) as [_ Hq].
  assert (E : bytes_of (getTimestamp t) =
              (pad0 4 (Fmt.digits (year t)) ++ bytes_of "-" ++
               pad0 2 (Fmt.digits (month t)) ++ bytes_of "-" ++
               pad0 2 (Fmt.digits (day t)) ++ bytes_of " " ++
               pad0 2 (Fmt.digits (hour t)) ++ bytes_of ":" ++
               pad0 2 (Fmt.digits (min t)) ++ bytes_of ":" ++
               pad0 2 (Fmt.digits (sec t)) ++ bytes_of ":" ++
               pad0 6 (Fmt.digits (nsec t / 1000))) ++ []).
  { rewrite app_nil_r, <- stamps_agree by (assumption || lia).
    apply text_stamp_nonneg; [exact Hv | lia]. }
  split.
  - rewrite E. apply parse_padded; lia.
  - replace (String.length (getTimestamp t)) with (length (bytes_of (getTimestamp t))).
    + rewrite E, app_nil_r, !length_app, !pad0_exact by lia. reflexivity.
    + unfold bytes_of. generalize (getTimestamp t). intros s.
      induction s as [| c s IH]; simpl; [reflexivity | now rewrite IH].
Qed.

Lemma getTimestamp_round_trip_witness :
  parse_fields stamp_widths (bytes_of (getTimestamp example_time))
  = [2024; 1; 5; 8; 3; 9; 123456] /\
  String.length (getTimestamp example_time) = 26%nat.
Proof.
  apply (getTimestamp_round_trip example_time); [valid_example | simpl; lia].
Defined.

(** ** More on [itoa] *)

Module FieldFacts.

(** Below ten, negative numbers included, [itoa] writes exactly the
    width. *)
Lemma itoa_text_small_length i wid :
  Int.in_range i -> i < 10 -> 1 <= wid <= 20 ->
  Z.of_nat (length (itoa_text i wid)) = wid.
Proof.
  intros Hi Hlt Hw.
  destruct (itoa_digits_small 21 i wid [] Hi Hlt) as (acc & i' & E & Hl);
    [ilia | lia | lia |].
  unfold itoa_text. rewrite itoa_bytes_refines, E. simpl length in Hl.
  destruct (Nat.leb_spec (length acc) 19); [| lia]. simpl length. lia.
Qed.

(** The first byte [itoa] writes is the digit of the final value of its
    variable [i]. *)
Lemma itoa_bytes_head i wid :
  0 <= i <= Int.max_int -> Int.min_int + 18 <= wid <= 20 ->
  exists i' acc,
    itoa_bytes i wid = Ok (Int.to_byte (48 + i') :: acc, i') /\
    0 <= i' <= 9 /\
    Int.to_byte (48 + i') :: acc = pad0 wid (Fmt.digits i).
Proof.
  intros Hi Hw. pose proof (max_int_digits i Hi) as Hd.
  destruct (itoa_digits_spec 21 i wid [] Hi) as (acc & i' & E & Hi' & Hout);
    [ilia | ilia | ilia |].
  rewrite app_nil_r in Hout. rewrite add48 in Hout by exact Hi'.
  pose proof (pad0_length wid (Fmt.digits i)) as Hl. rewrite <- Hout in Hl.
  simpl length in Hl.
  exists i', acc. rewrite itoa_bytes_refines, E.
  destruct (Nat.leb_spec (length acc) 19); [| lia].
  rewrite add48 by exact Hi'. auto.
Qed.

Lemma digits_no_newline (f : bytes) : forallb is_digit f = true -> newline ∉ f.
Proof.
  intros Hd Hin. apply list_elem_of_In in Hin.
  rewrite forallb_forall in Hd. apply Hd in Hin. discriminate.
Qed.

Lemma sprintf_d (d : Z) :
  Fmt.Sprintf "failed adding zero padding to %d" [d]
  = string_of_list_ascii (bytes_of "failed adding zero padding to " ++ Fmt.fmtInteger false None d).
Proof.
  unfold Fmt.Sprintf. f_equal.
  cbv - [Fmt.fmtInteger app]. now rewrite app_nil_r.
Qed.

Lemma sprintf_0d (i : Z) :
  bytes_of (Fmt.Sprintf "%02d" [i]) = Fmt.fmtInteger true (Some 2) i /\
  bytes_of (Fmt.Sprintf "%04d" [i]) = Fmt.fmtInteger true (Some 4) i /\
  bytes_of (Fmt.Sprintf "%06d" [i]) = Fmt.fmtInteger true (Some 6) i.
Proof.
  unfold Fmt.Sprintf, bytes_of. rewrite !list_ascii_of_string_of_list_ascii.
  repeat split; cbv - [Fmt.fmtInteger app]; now rewrite app_nil_r.
Qed.

End FieldFacts.

Import FieldFacts.

(** X4. For every time with a year of at most 9999, negative years
    included, the date and time the text formatter writes take exactly
    26 bytes, so that the level label starts at byte 27 of the line. *)
Theorem text_stamp_width (l : Logger) (msg : string) (t : Time) :
  valid_time t -> year t <= 9999 ->
  length (text_stamp t) = 26%nat /\
  exists out,
    text_output l msg t = Ok out /\
    take 26 out = text_stamp t /\
    drop 26 out = bytes_of " " ++ bytes_of (TextFormatter.label (logLevel l)) ++ text_tail msg.
Proof.
  intros Hv Hy. pose proof Hv as (Hyr & Hmo & Hd & Hh & Hmi & Hs & Hn).
  destruct (micro_range _ Hn) as [Eq Hq].
  assert (Hlen : length (text_stamp t) = 26%nat).
  { assert (Hy4 : Z.of_nat (length (itoa_text (year t) 4)) = 4).
    { destruct (Z.lt_ge_cases (year t) 10).
      - apply itoa_text_small_length; [exact Hyr | lia | lia].
      - rewrite itoa_text_nonneg by ilia. rewrite pad0_exact by lia. reflexivity. }
    unfold text_stamp. rewrite Eq, !length_app.
    rewrite !(itoa_text_nonneg _ 2), (itoa_text_nonneg _ 6) by ilia.
    rewrite !pad0_exact by lia. simpl. lia. }
  split; [exact Hlen |].
  eexists. split.
  { unfold text_output. rewrite Format_buffer by exact Hv. reflexivity. }
  unfold appended, fresh. cbn [contents stream]. rewrite app_nil_l, <- Hlen.
  split; [apply take_app_length | apply drop_app_length].
Qed.

Lemma text_stamp_width_witness :
  length (text_stamp (with_year (-1) example_time)) = 26%nat.
Proof.
  apply (text_stamp_width {| fields := ∅; logLevel := Nfo |} "" (with_year (-1) example_time));
    [valid_example | simpl; lia].
Defined.

(** X5. On a non-negative number [itoa] with the widths 2, 4 and 6, the
    ones the text formatter uses, writes what [fmt] prints for [%02d],
    [%04d] and [%06d]. *)
Theorem itoa_agrees_with_fmt (i : Z) (σ : World Buffer) :
  0 <= i <= Int.max_int ->
  itoa i 2 σ = Ok (tt, appended (bytes_of (Fmt.Sprintf "%02d" [i])) σ) /\
  itoa i 4 σ = Ok (tt, appended (bytes_of (Fmt.Sprintf "%04d" [i])) σ) /\
  itoa i 6 σ = Ok (tt, appended (bytes_of (Fmt.Sprintf "%06d" [i])) σ).
Proof.
  intros Hi. destruct (sprintf_0d i) as (-> & -> & ->).
  rewrite !fmt_0d by lia. rewrite !itoa_buffer by ilia.
  rewrite !itoa_text_nonneg by ilia. auto.
Qed.

Lemma itoa_agrees_with_fmt_witness :
  itoa 7 2 fresh = Ok (tt, appended (bytes_of (Fmt.Sprintf "%02d" [7])) fresh).
Proof.
  apply (itoa_agrees_with_fmt 7 fresh). unfold Int.max_int. lia.
Defined.

(** X6. For a non-negative year the text formatter writes no newline
    before the message: a message without a newline gives exactly one
    line, the newline being the last byte written. *)
Theorem Format_single_line (l : Logger) (msg : string) (t : Time) :
  valid_time t -> 0 <= year t ->
  exists head,
    (newline ∉ head) /\
    text_output l msg t = Ok (head ++ text_tail msg) /\
    (newline ∉ bytes_of msg ->
     exists line, text_output l msg t = Ok (line ++ [newline]) /\ (newline ∉ line)).
Proof.
  intros Hv Hy. pose proof Hv as (Hyr & Hmo & Hd & Hh & Hmi & Hs & Hn).
  destruct (micro_range _ Hn) as [Eq Hq].
  set (head := text_stamp t ++ bytes_of " " ++ bytes_of (TextFormatter.label (logLevel l))).
  assert (Hout : text_output l msg t = Ok (head ++ text_tail msg)).
  { unfold text_output. rewrite Format_buffer by exact Hv.
    unfold appended, fresh, head. cbn [contents stream].
    now rewrite app_nil_l, <- !app_assoc. }
  assert (Hhead : newline ∉ head).
  { unfold head. rewrite text_stamp_nonneg by (assumption || lia).
    rewrite !not_elem_of_app. cbn [bytes_of list_ascii_of_string].
    repeat split;
      try (apply digits_no_newline, pad0_digits; lia);
      try (apply not_elem_of_cons; split; [discriminate | apply not_elem_of_nil]).
    destruct (logLevel l); cbn;
      repeat (apply not_elem_of_cons; split; [discriminate |]); apply not_elem_of_nil. }
  exists head. split; [exact Hhead |]. split; [exact Hout |].
  intros Hmsg. exists (head ++ bytes_of msg).
  split; [| rewrite not_elem_of_app; auto].
  rewrite Hout. unfold text_tail, TextFormatter.needs_newline.
  destruct (last (bytes_of msg)) as [c |] eqn:El; [| now rewrite app_assoc].
  destruct (Ascii.eqb_spec c newline) as [-> | Hne]; simpl; [| now rewrite app_assoc].
  exfalso. apply Hmsg. apply last_Some in El as [m' ->].
  apply elem_of_app. right. apply list_elem_of_singleton. reflexivity.
Qed.

Lemma Format_single_line_witness :
  exists line,
    text_output {| fields := ∅; logLevel := Dbg |} "started" example_time
    = Ok (line ++ [newline]) /\ (newline ∉ line).
Proof.
  destruct (Format_single_line {| fields := ∅; logLevel := Dbg |} "started" example_time)
    as (head & _ & _ & Hline); [valid_example | simpl; lia |].
  apply Hline. vm_compute. intros Hin.
  repeat (apply elem_of_cons in Hin as [Hin | Hin]; [discriminate |]).
  now apply not_elem_of_nil in Hin.
Defined.

(** X7. When the write of [itoa] fails, the diagnostic names the final
    value of the loop variable, which is the leading digit written, and
    not the number [itoa] was given. *)
Theorem itoa_diagnostic_digit {W : Type} `{Writer W}
    (i wid : Z) (σ : World W) (w : W) (n : Z) (e : error) :
  0 <= i <= Int.max_int -> Int.min_int + 18 <= wid <= 20 ->
  Write (stream σ) (pad0 wid (Fmt.digits i)) = (w, (n, Some e)) ->
  exists c rest,
    pad0 wid (Fmt.digits i) = c :: rest /\
    is_digit c = true /\
    itoa i wid σ =
    Ok (tt, {| stream := w;
               stderr := stderr σ ++
                 [string_of_list_ascii (bytes_of "failed adding zero padding to " ++ [c])] |}).
Proof.
  intros Hi Hw Hfail.
  destruct (itoa_bytes_head i wid Hi Hw) as (i' & acc & E & Hi' & Hout).
  exists (Int.to_byte (48 + i')), acc. split; [symmetry; exact Hout |].
  split; [apply is_digit_to_byte; exact Hi' |].
  rewrite <- Hout in Hfail. rewrite (itoa_failure _ _ _ _ _ _ _ _ E Hfail).
  rewrite sprintf_d, fmt_d, digits_small by lia. reflexivity.
Qed.

Lemma itoa_diagnostic_digit_witness :
  exists c rest,
    pad0 4 (Fmt.digits 2024) = c :: rest /\
    is_digit c = true /\
    itoa 2024 4 {| stream := {| room := 0; stored := [] |}; stderr := [] |} =
    Ok (tt, {| stream := {| room := 0; stored := [] |};
               stderr := [string_of_list_ascii
                            (bytes_of "failed adding zero padding to " ++ [c])] |}).
Proof.
  apply (itoa_diagnostic_digit (W := Limited) 2024 4
           {| stream := {| room := 0; stored := [] |}; stderr := [] |}
           {| room := 0; stored := [] |} 0 "short write"%string).
  - unfold Int.max_int. lia.
  - unfold Int.min_int. lia.
  - vm_compute. reflexivity.
Defined.

(** ** Call by call *)

Module TraceFacts.
Section AnyWriter.
Context {W : Type} `{Writer W}.

Lemma failures_app cs1 cs2 : failures (cs1 ++ cs2) = (failures cs1 + failures cs2)%nat.
Proof. unfold failures. now rewrite List.filter_app, length_app. Qed.

Lemma traced_seq {A B} (m : M (Traced W) A) (k : M (Traced W) B) (P : B -> Prop) c cs :
  returns m (fun _ => traced_step [c]) ->
  returns k (fun b σ σ' => P b /\ traced_step cs σ σ') ->
  returns (m >> k) (fun b σ σ' => P b /\ traced_step (c :: cs) σ σ').
Proof.
  intros Hm Hk σ. destruct (Hm σ) as (a & σ1 & E1 & n1 & Hc1 & Hf1 & He1).
  destruct (Hk σ1) as (b & σ2 & E2 & HP & n2 & Hc2 & Hf2 & He2).
  exists b, σ2. unfold bind. rewrite E1. split; [exact E2 |]. split; [exact HP |].
  exists (n1 ++ n2). rewrite Hc2, Hc1, <- app_assoc, map_app, Hf1, Hf2, failures_app.
  split; [reflexivity |]. split; [reflexivity | lia].
Qed.

Lemma traced_write_eq (tr : Traced W) (p : bytes) :
  Write tr p =
  ({| inner := (Write (inner tr) p).1;
      calls := calls tr ++
        [(p, match (Write (inner tr) p).2.2 with Some _ => true | None => false end)] |},
   (Write (inner tr) p).2).
Proof.
  unfold Write at 1, Traced_Writer.
  destruct (Write (inner tr) p) as [w [n err]]. reflexivity.
Qed.

Lemma traced_write (p : bytes) (σ : World (Traced W)) :
  exists w n err,
    Write (stream σ) p = (w, (n, err)) /\
    calls w = calls (stream σ) ++ [(p, match err with Some _ => true | None => false end)].
Proof.
  unfold Write at 1, Traced_Writer.
  destruct (Write (inner (stream σ)) p) as [w [n err]]. eexists _, _, _.
  split; reflexivity.
Qed.

Lemma writeString_traced str :
  returns (writeString str) (fun _ : unit => traced_step [bytes_of str]).
Proof.
  intros σ. destruct (traced_write (bytes_of str) σ) as (w & n & err & E & Hc).
  unfold writeString. rewrite E.
  destruct err as [e |]; eexists _, _; (split; [reflexivity |]);
    eexists; cbn [stream stderr]; (split; [exact Hc |]);
    (split; [reflexivity |]); rewrite ?length_app; unfold failures; simpl; lia.
Qed.

Lemma itoa_traced i wid :
  Int.in_range i -> Int.min_int + 18 <= wid <= 20 ->
  returns (itoa i wid) (fun _ : unit => traced_step [itoa_text i wid]).
Proof.
  intros Hi Hw σ. destruct (itoa_bytes_total i wid Hi Hw) as (p & i' & E).
  rewrite (itoa_text_eq _ _ _ _ E).
  destruct (traced_write p σ) as (w & n & err & Ew & Hc).
  unfold itoa. rewrite E, Ew.
  destruct err as [e |]; eexists _, _; (split; [reflexivity |]);
    eexists; cbn [stream stderr]; (split; [exact Hc |]);
    (split; [reflexivity |]); rewrite ?length_app; unfold failures; simpl; lia.
Qed.

Lemma traced_done {A} (a : A) :
  returns (ret a) (fun b (σ σ' : World (Traced W)) => b = a /\ traced_step [] σ σ').
Proof.
  intros σ. exists a, σ. split; [reflexivity |]. split; [reflexivity |].
  exists []. rewrite app_nil_r. split; [reflexivity |]. split; [reflexivity |].
  unfold failures. simpl. lia.
Qed.

End AnyWriter.
End TraceFacts.

Import TraceFacts.

(** X8. Whatever the stream does, the text formatter calls [Write] once
    for each piece of the line, sixteen or seventeen times in a fixed
    order, going on after a failed call, and it puts exactly one line
    on standard error for each call that failed. *)
Theorem Format_call_by_call {W : Type} `{Writer W}
    (l : Logger) (msg : string) (t : Time) (w : W) :
  valid_time t ->
  exists σ',
    TextFormatter.Format l msg t
      {| stream := {| inner := w; calls := [] |}; stderr := [] |} = Ok (None, σ') /\
    map fst (calls (stream σ')) = text_chunks l msg t /\
    length (stderr σ') = failures (calls (stream σ')) /\
    (16 <= length (calls (stream σ')) <= 17)%nat.
Proof.
  intros (Hy & Hmo & Hd & Hh & Hmi & Hs & Hn).
  destruct (micro_range _ Hn) as [Eq Hq].
  assert (Hret : returns (TextFormatter.Format (W := Traced W) l msg t)
                   (fun r σ σ' => r = None /\ traced_step (text_chunks l msg t) σ σ')).
  { unfold TextFormatter.Format, text_chunks.
    destruct (TextFormatter.needs_newline msg); cbn [app];
      repeat (apply traced_seq;
              [first [ apply writeString_traced
                     | apply itoa_traced;
                       [first [exact Hy | apply in_range_small; lia] | ilia] ] |]).
    - apply traced_done.
    - intros σ. exact (traced_done None σ). }
  destruct (Hret {| stream := {| inner := w; calls := [] |}; stderr := [] |})
    as (r & σ' & E & -> & new & Hc & Hm & He).
  cbn [stream calls stderr app length] in Hc, He. rewrite Nat.add_0_l in He.
  exists σ'. rewrite Hc. split; [exact E |]. split; [exact Hm |]. split; [exact He |].
  rewrite <- (length_map fst), Hm. unfold text_chunks. rewrite length_app.
  destruct (TextFormatter.needs_newline msg); simpl; lia.
Qed.

Lemma Format_call_by_call_witness :
  exists σ',
    TextFormatter.Format {| fields := ∅; logLevel := Nfo |} "started" example_time
      {| stream := {| inner := {| room := 12; stored := [] |}; calls := [] |};
         stderr := [] |} = Ok (None, σ') /\
    length (stderr σ') = failures (calls (stream σ')) /\
    (16 <= length (calls (stream σ')) <= 17)%nat.
Proof.
  destruct (Format_call_by_call (W := Limited) {| fields := ∅; logLevel := Nfo |}
              "started" example_time {| room := 12; stored := [] |})
    as (σ' & E & _ & He & Hn); [valid_example |].
  exists σ'. split; [exact E |]. split; [exact He | exact Hn].
Defined.

(** ** More on the JSON formatter *)

Section JSONMore.
Context {W : Type} `{Writer W}.
Variable marshal : gmap string Value -> error + bytes.
Variable unknown_name : Z -> string.

Lemma Format_json_injected l msg t (σ : World W) :
  let fs := injected msg (getTimestamp t)
              (JSONFormatter.Level_String unknown_name (logLevel l)) (fields l) in
  JSONFormatter.Format marshal unknown_name l msg t σ =
  Ok ((option_map JSONFormatter.wrap_error (JSONFormatter.Encode marshal fs (stream σ)).2,
       {| fields := fs; logLevel := logLevel l |}),
      {| stream := (JSONFormatter.Encode marshal fs (stream σ)).1; stderr := stderr σ |}).
Proof. apply Format_json_run. Qed.

Lemma injected_injected m1 t1 l1 m2 t2 l2 (fs : gmap string Value) :
  injected m2 t2 l2 (injected m1 t1 l1 fs) = injected m2 t2 l2 fs.
Proof.
  apply map_eq. intros k. unfold injected.
  rewrite !lookup_insert. repeat destruct (decide _); congruence.
Qed.

Lemma size_insert_bounds (k : string) (v : Value) (m : gmap string Value) :
  (size m <= size (<[k := v]> m) <= S (size m))%nat.
Proof.
  destruct (m !! k) as [x |] eqn:E.
  - rewrite (map_size_insert_Some k v m); [lia | eauto].
  - rewrite (map_size_insert_None k v m E). lia.
Qed.

End JSONMore.

(** X9. A call of the JSON formatter never removes a key: the keys of
    the field mapping afterwards are the keys before and the three
    reserved ones, so the mapping grows by at most three entries. *)
Theorem Format_json_keys {W : Type} `{Writer W}
    (marshal : gmap string Value -> error + bytes) (unknown_name : Z -> string)
    (l : Logger) (msg : string) (t : Time) (σ : World W) :
  exists err l' σ',
    JSONFormatter.Format marshal unknown_name l msg t σ = Ok ((err, l'), σ') /\
    dom (fields l') = {["msg"%string; "timestamp"%string; "level"%string]} ∪ dom (fields l) /\
    (size (fields l) <= size (fields l') <= size (fields l) + 3)%nat.
Proof.
  eexists _, _, _. split; [apply Format_json_run |]. cbn [fields].
  split.
  - rewrite !dom_insert_L. apply set_eq. intros x.
    rewrite !elem_of_union, !elem_of_singleton. tauto.
  - pose proof (size_insert_bounds "msg" (VString msg) (fields l)).
    pose proof (size_insert_bounds "timestamp" (VString (getTimestamp t))
                  (<["msg" := VString msg]> (fields l))).
    pose proof (size_insert_bounds "level"
                  (VString (JSONFormatter.Level_String unknown_name (logLevel l)))
                  (<["timestamp" := VString (getTimestamp t)]>
                     (<["msg" := VString msg]> (fields l)))).
    lia.
Qed.

(** X10. The second of two calls of the JSON formatter behaves as if
    the first had not happened: same error, same logger, same stream.
    No message, timestamp or level of an earlier call stays in the
    field mapping. *)
Theorem Format_json_last_call_wins {W : Type} `{Writer W}
    (marshal : gmap string Value -> error + bytes) (unknown_name : Z -> string)
    (l : Logger) (msg1 msg2 : string) (t1 t2 : Time) (σ1 σ2 : World W) :
  exists err1 l1 σ1',
    JSONFormatter.Format marshal unknown_name l msg1 t1 σ1 = Ok ((err1, l1), σ1') /\
    JSONFormatter.Format marshal unknown_name l1 msg2 t2 σ2
    = JSONFormatter.Format marshal unknown_name l msg2 t2 σ2.
Proof.
  eexists _, _, _. split; [apply Format_json_injected |].
  rewrite !Format_json_injected. cbn [fields logLevel].
  rewrite injected_injected. reflexivity.
Qed.

(** X11. The JSON formatter calls [Write] at most once: when the field
    mapping with the reserved keys can be marshalled, once with the
    record followed by one newline, and a failure of this call comes
    back under the text ["failed to marshal fields to JSON, "]; when it
    cannot, not at all. It never writes to standard error. *)
Theorem Format_json_one_write {W : Type} `{Writer W}
    (marshal : gmap string Value -> error + bytes) (unknown_name : Z -> string)
    (l : Logger) (msg : string) (t : Time) (w : W) (errs : list string) :
  let fs := injected msg (getTimestamp t)
              (JSONFormatter.Level_String unknown_name (logLevel l)) (fields l) in
  exists err l' σ',
    JSONFormatter.Format marshal unknown_name l msg t
      {| stream := {| inner := w; calls := [] |}; stderr := errs |} = Ok ((err, l'), σ') /\
    stderr σ' = errs /\
    (forall p, marshal fs = inr p ->
       map fst (calls (stream σ')) = [p ++ [newline]] /\
       inner (stream σ') = (Write w (p ++ [newline])).1 /\
       err = option_map JSONFormatter.wrap_error (Write w (p ++ [newline])).2.2) /\
    (forall e, marshal fs = inl e ->
       calls (stream σ') = [] /\ inner (stream σ') = w /\
       err = Some (JSONFormatter.wrap_error e)).
Proof.
  intros fs. eexists _, _, _. split; [apply Format_json_injected |].
  cbn [stream stderr]. fold fs. split; [reflexivity |].
  unfold JSONFormatter.Encode. split.
  - intros p ->. rewrite traced_write_eq. cbn [inner calls].
    destruct (Write w (p ++ [newline])) as [w' [n r]]. cbn. auto.
  - intros e ->. cbn. auto.
Qed.

Lemma Format_json_one_write_witness :
  exists err l' σ',
    JSONFormatter.Format (W := Traced Buffer) (fun _ => inr (bytes_of "{}")) (fun _ => ""%string)
      {| fields := ∅; logLevel := Err |} "" example_time
      {| stream := {| inner := {| contents := [] |}; calls := [] |}; stderr := [] |}
    = Ok ((err, l'), σ') /\
    map fst (calls (stream σ')) = [bytes_of "{}" ++ [newline]] /\
    err = None.
Proof.
  destruct (Format_json_one_write (W := Buffer) (fun _ => inr (bytes_of "{}"))
              (fun _ => ""%string) {| fields := ∅; logLevel := Err |} "" example_time
              {| contents := [] |} [])
    as (err & l' & σ' & E & _ & Hp & _).
  exists err, l', σ'. split; [exact E |].
  destruct (Hp (bytes_of "{}") eq_refl) as (Hc & _ & He).
  split; [exact Hc | exact He].
Defined.

(** X12. The text formatter keeps no state between calls: what a call
    appends to an in-memory stream does not depend on what the stream
    holds, so two calls in a row leave the two lines one after the
    other, each ended by its newline. *)
Theorem Format_twice (l1 l2 : Logger) (msg1 msg2 : string) (t1 t2 : Time)
    (σ : World Buffer) :
  valid_time t1 -> valid_time t2 ->
  exists out1 out2,
    text_output l1 msg1 t1 = Ok out1 /\
    text_output l2 msg2 t2 = Ok out2 /\
    last out1 = Some newline /\ last out2 = Some newline /\
    (TextFormatter.Format l1 msg1 t1 >> TextFormatter.Format l2 msg2 t2) σ
    = Ok (None, appended (out1 ++ out2) σ).
Proof.
  intros Hv1 Hv2. unfold text_output, bind.
  rewrite !Format_buffer by assumption.
  eexists _, _. split; [reflexivity |]. split; [reflexivity |].
  unfold appended at 1 2, fresh. cbn [contents stream]. rewrite !app_nil_l.
  assert (Hlast : forall msg (pre : bytes), last (pre ++ text_tail msg) = Some newline).
  { intros msg pre. unfold text_tail, TextFormatter.needs_newline.
    destruct (last (bytes_of msg)) as [c |] eqn:El.
    - destruct (Ascii.eqb_spec c newline) as [-> | Hne]; simpl.
      + now rewrite app_nil_r, last_app, El.
      + now rewrite !app_assoc, last_snoc.
    - now rewrite !app_assoc, last_snoc. }
  split; [rewrite !app_assoc; apply Hlast |].
  split; [rewrite !app_assoc; apply Hlast |].
  now rewrite appended_appended.
Qed.

Lemma Format_twice_witness :
  exists out1 out2,
    text_output {| fields := ∅; logLevel := Nfo |} "a" example_time = Ok out1 /\
    text_output {| fields := ∅; logLevel := Err |} "b" example_time = Ok out2 /\
    (TextFormatter.Format {| fields := ∅; logLevel := Nfo |} "a" example_time >>
     TextFormatter.Format {| fields := ∅; logLevel := Err |} "b" example_time) fresh
    = Ok (None, appended (out1 ++ out2) fresh).
Proof.
  destruct (Format_twice {| fields := ∅; logLevel := Nfo |} {| fields := ∅; logLevel := Err |}
              "a" "b" example_time example_time fresh)
    as (out1 & out2 & E1 & E2 & _ & _ & E); [valid_example | valid_example |].
  exists out1, out2. split; [exact E1 |]. split; [exact E2 | exact E].
Defined.
